(** * amqp.connection: the AMQP 0-9-1 connection state machine

    A shallow embedding of [amqp/connection.py] (class [Connection]) and the
    properties of its handshake negotiation, channel-id pool, close handling
    and heartbeat monitor.

    Conventions of the embedding.
    - Python numbers ([int], and the [float] seconds of the heartbeat fields
      and of [time.monotonic]) are integers [Z]; float rounding is not
      modelled.  [None] is the [None] of [option].
    - A [dict] is a [gmap]; the [array('H')] of free channel ids is a [list Z]
      in the order of the array.
    - A method of [Connection] is a computation of the monad [M]: it reads and
      writes the world (the connection object [self], the wire, the clock)
      and returns a value or raises an exception.  What a method has done to
      the world before it raises stays done, as in Python.
    - [await] is sequencing: one coroutine runs at a time. *)

From Stdlib Require Import Ascii.
From stdpp Require Import gmap strings list fin_maps pretty.

Set Warnings "-register-all,-clear-no-such-hyp".
#[local] Open Scope Z_scope.

(** ** Python values carried in AMQP field tables *)

Inductive value :=
  | VNone
  | VBool (b : bool)
  | VInt (n : Z)
  | VStr (s : string)
  | VTable (t : gmap string value).

(** Truth value of an object in a boolean context ([if x], [x or y]). *)
Definition truthy (v : value) : bool :=
  match v with
  | VNone => false
  | VBool b => b
  | VInt n => negb (n =? 0)
  | VStr s => negb (String.eqb s "")
  | VTable t => negb (bool_decide (map_to_list t = []))
  end.

(** [d.get(k)] in a boolean context: a missing key gives [None], falsy. *)
Definition truthy_get (d : gmap string value) (k : string) : bool :=
  match d !! k with
  | Some v => truthy v
  | None => false
  end.

(** [x or d] on numbers. *)
Definition or_else (x d : Z) : Z := if x =? 0 then d else x.

(** [x or d] where [x] may be [None]. *)
Definition opt_or_else (x : option Z) (d : Z) : Z :=
  match x with
  | Some n => or_else n d
  | None => d
  end.

(** [not x] where [x] is a number or [None]. *)
Definition falsy (x : option Z) : bool :=
  match x with
  | Some n => n =? 0
  | None => true
  end.

(** [s.split(' ')]: every single space separates, so consecutive spaces give
    empty fields and the result is never empty. *)
Fixpoint split_on (sep : Ascii.ascii) (s : string) : list string :=
  match s with
  | EmptyString => [EmptyString]
  | String c rest =>
      if Ascii.eqb c sep then EmptyString :: split_on sep rest
      else match split_on sep rest with
           | w :: ws => String c w :: ws
           | [] => [String c EmptyString]
           end
  end.

(** ** Exceptions *)

(** The exception classes [connection.py] raises by name, and the built-in
    ones the interpreter raises inside its methods. *)
Inductive exc_class :=
  | ChannelError
  | RecoverableChannelError
  | ResourceError
  | ConnectionError
  | RecoverableConnectionError
  | ConnectionForced
  | TypeError
  | AttributeError
  | KeyError
  | OverflowError
  | socket_error
  | socket_timeout.

#[global] Instance exc_class_eq_dec : EqDecision exc_class.
Proof. solve_decision. Defined.

(** An AMQP exception is built as [Cls(reply_text, method_sig,
    reply_code=code)]; the later arguments default to [None]. *)
Record exn := Exn {
  exc_type : exc_class;
  reply_text : string;
  method_sig : option (Z * Z);
  reply_code : option Z;
}.

(** An exception raised by the interpreter; its message is not modelled. *)
Definition builtin (c : exc_class) : exn := Exn c "" None None.

(** Modelled from the spec: the class hierarchy of [amqp/exceptions.py]
    (not in the sources at hand), section 7 "Taxonomy": recoverable errors
    are a subset of their family, a forced close is a connection error;
    [socket.timeout] is an [OSError] as [socket.error] is.  The spec names
    no parent for resource errors, so [ResourceError] has none here, and no
    property below depends on where it stands. *)
Definition superclass (c : exc_class) : option exc_class :=
  match c with
  | RecoverableChannelError => Some ChannelError
  | ConnectionForced => Some RecoverableConnectionError
  | RecoverableConnectionError => Some ConnectionError
  | socket_timeout => Some socket_error
  | _ => None
  end.

(** [issubclass c d], following [superclass] upwards. *)
Fixpoint issubclass_fuel (n : nat) (c d : exc_class) : bool :=
  bool_decide (c = d) ||
  match n, superclass c with
  | S n', Some p => issubclass_fuel n' p d
  | _, _ => false
  end.

Definition issubclass : exc_class → exc_class → bool := issubclass_fuel 4.

(** [isinstance(e, classes)] for a tuple of classes. *)
Definition isinstance (e : exn) (classes : list exc_class) : bool :=
  existsb (issubclass (exc_type e)) classes.

(** The class tuples of [Connection]; [IOError] and [OSError] are the class
    [socket.error] is an alias of. *)
Definition connection_errors : list exc_class := [ConnectionError; socket_error].
Definition channel_errors : list exc_class := [ChannelError].
Definition recoverable_connection_errors : list exc_class :=
  [RecoverableConnectionError; socket_error].
Definition recoverable_channel_errors : list exc_class := [RecoverableChannelError].

(** Modelled from the spec: [error_for_code] of [amqp/exceptions.py] (not in
    the sources at hand), section 4.1 "Receiving Close": an error of the
    family of the default class, "mapped from reply_code", "carrying
    reply_code, reply_text, and the offending (class_id, method_id)".  The
    table that refines the class by reply code is not available; the class
    given as default stands for the family. *)
Definition error_for_code (code : Z) (text : string) (method : Z * Z)
    (default : exc_class) : exn :=
  Exn default text (Some method) (Some code).

(** Modelled from the spec: [spec.Channel.Open] of [amqp/spec.py] (not in
    the sources at hand), the signature of the method that opens a channel
    (section 4.1, "channel-open handshake"); AMQP 0-9-1 numbers it class 20,
    method 10. *)
Definition spec_Channel_Open : Z * Z := (20, 10).

(** ** Methods and frames *)

(** The methods the connection writes, with their argument tuples. *)
Inductive out_method :=
  | Connection_StartOk (client_properties : gmap string value)
      (login_method : string) (login_response : option string) (locale : string)
  | Connection_TuneOk (channel_max frame_max heartbeat : Z)
  | Connection_Open (virtual_host reserved1 : string) (reserved2 : bool)
  | Connection_CloseOk
  | Channel_Open.

(** The methods [_METHODSET] lists, which the broker sends on channel 0, and
    the methods of the channel class, opaque here. *)
Inductive in_method :=
  | Connection_Start (version_major version_minor : Z)
      (server_properties : gmap string value) (mechanisms locales : string)
  | Connection_OpenOk
  | Connection_Secure (challenge : string)
  | Connection_Tune (channel_max frame_max server_heartbeat : Z)
  | Connection_Close (reply_code : Z) (reply_text : string) (class_id method_id : Z)
  | Connection_Blocked
  | Connection_Unblocked
  | Connection_CloseOk_in
  | Channel_method.

(** What [frame_writer] is called with: [(1, channel, sig, args, content)]
    for a method, [(8, 0, None, None, None)] for a heartbeat. *)
Inductive out_frame :=
  | MethodFrame (channel_id : Z) (m : out_method)
  | HeartbeatFrame.

Inductive in_frame :=
  | InMethod (channel_id : Z) (m : in_method)
  | InHeartbeat.

(** ** The connection object *)

(** The transport is an external object; the connection reads its
    [connected] flag. *)
Record Transport := { connected : bool }.

(** An entry of [Connection.channels]: the connection itself (channel 0) or
    a [Channel] object. *)
Inductive channel_obj :=
  | ChSelf
  | ChChannel (channel_id : Z) (is_open : bool).

(** The attributes of [Connection] that its methods read or write; an
    attribute holding a callable records whether it is set. *)
Record Connection := {
  negotiate_capabilities : gmap string value;
  client_properties : gmap string value;
  login_method : string;
  login_response : option string;
  locale : string;
  virtual_host : string;
  _handshake_complete : bool;
  channels : option (gmap Z channel_obj);
  connection : option channel_obj;
  _frame_writer : bool;
  _on_inbound_frame : bool;
  _transport : option Transport;
  channel_max : Z;
  frame_max : Z;
  client_heartbeat : option Z;
  on_blocked : bool;
  on_unblocked : bool;
  _avail_channel_ids : list Z;
  version_major : Z;
  version_minor : Z;
  server_properties : gmap string value;
  mechanisms : list string;
  locales : list string;
  heartbeat : option Z;
  server_heartbeat : option Z;
  last_heartbeat_sent : Z;
  last_heartbeat_received : Z;
  bytes_sent : Z;
  bytes_recv : Z;
  prev_sent : option Z;
  prev_recv : option Z;
}.

(** Attribute assignment [self.attr = v]: the record rebuilt with one field
    replaced, derived from the eta-expansion of the record. *)
Ltac attr_setter proj :=
  let eta := constr:(fun c : Connection =>
    Build_Connection
      (negotiate_capabilities c) (client_properties c) (login_method c)
      (login_response c) (locale c) (virtual_host c) (_handshake_complete c)
      (channels c) (connection c) (_frame_writer c) (_on_inbound_frame c)
      (_transport c) (channel_max c) (frame_max c) (client_heartbeat c)
      (on_blocked c) (on_unblocked c) (_avail_channel_ids c)
      (version_major c) (version_minor c) (server_properties c)
      (mechanisms c) (locales c) (heartbeat c) (server_heartbeat c)
      (last_heartbeat_sent c) (last_heartbeat_received c) (bytes_sent c)
      (bytes_recv c) (prev_sent c) (prev_recv c)) in
  match eval pattern proj in eta with
  | ?F _ =>
      let s := eval cbv beta in (fun v c => F (fun _ => v) c) in
      exact s
  end.

Definition set_client_properties : gmap string value → Connection → Connection :=
  ltac:(attr_setter client_properties).
Definition set__handshake_complete : bool → Connection → Connection :=
  ltac:(attr_setter _handshake_complete).
Definition set_channels : option (gmap Z channel_obj) → Connection → Connection :=
  ltac:(attr_setter channels).
Definition set_connection : option channel_obj → Connection → Connection :=
  ltac:(attr_setter connection).
Definition set__frame_writer : bool → Connection → Connection :=
  ltac:(attr_setter _frame_writer).
Definition set__on_inbound_frame : bool → Connection → Connection :=
  ltac:(attr_setter _on_inbound_frame).
Definition set__transport : option Transport → Connection → Connection :=
  ltac:(attr_setter _transport).
Definition set_channel_max : Z → Connection → Connection :=
  ltac:(attr_setter channel_max).
Definition set_frame_max : Z → Connection → Connection :=
  ltac:(attr_setter frame_max).
Definition set__avail_channel_ids : list Z → Connection → Connection :=
  ltac:(attr_setter _avail_channel_ids).
Definition set_version_major : Z → Connection → Connection :=
  ltac:(attr_setter version_major).
Definition set_version_minor : Z → Connection → Connection :=
  ltac:(attr_setter version_minor).
Definition set_server_properties : gmap string value → Connection → Connection :=
  ltac:(attr_setter server_properties).
Definition set_mechanisms : list string → Connection → Connection :=
  ltac:(attr_setter mechanisms).
Definition set_locales : list string → Connection → Connection :=
  ltac:(attr_setter locales).
Definition set_heartbeat : option Z → Connection → Connection :=
  ltac:(attr_setter heartbeat).
Definition set_server_heartbeat : option Z → Connection → Connection :=
  ltac:(attr_setter server_heartbeat).
Definition set_last_heartbeat_sent : Z → Connection → Connection :=
  ltac:(attr_setter last_heartbeat_sent).
Definition set_last_heartbeat_received : Z → Connection → Connection :=
  ltac:(attr_setter last_heartbeat_received).
Definition set_bytes_sent : Z → Connection → Connection :=
  ltac:(attr_setter bytes_sent).
Definition set_bytes_recv : Z → Connection → Connection :=
  ltac:(attr_setter bytes_recv).
Definition set_prev_sent : option Z → Connection → Connection :=
  ltac:(attr_setter prev_sent).
Definition set_prev_recv : option Z → Connection → Connection :=
  ltac:(attr_setter prev_recv).

(** ** The world and the monad of methods *)

(** Everything a method can touch: the connection object, the frames written
    so far (oldest first), the frames the broker has still to send, the
    readings of [time.monotonic] (the [k]-th call returns [clock k]), whether
    the broker can be reached, the user callbacks called so far, and whether
    closing the transport fails because the connection is already closed on
    the other end. *)
Record World := {
  self : Connection;
  wire : list out_frame;
  inbound : list in_frame;
  clock : nat → Z;
  ticks : nat;
  reachable : bool;
  called : list string;
  close_fails : bool;
}.

Definition set_self (c : Connection) (w : World) : World :=
  {| self := c; wire := wire w; inbound := inbound w; clock := clock w;
     ticks := ticks w; reachable := reachable w; called := called w;
     close_fails := close_fails w |}.
Definition set_wire (o : list out_frame) (w : World) : World :=
  {| self := self w; wire := o; inbound := inbound w; clock := clock w;
     ticks := ticks w; reachable := reachable w; called := called w;
     close_fails := close_fails w |}.
Definition set_inbound (i : list in_frame) (w : World) : World :=
  {| self := self w; wire := wire w; inbound := i; clock := clock w;
     ticks := ticks w; reachable := reachable w; called := called w;
     close_fails := close_fails w |}.
Definition set_ticks (n : nat) (w : World) : World :=
  {| self := self w; wire := wire w; inbound := inbound w; clock := clock w;
     ticks := n; reachable := reachable w; called := called w;
     close_fails := close_fails w |}.
Definition set_called (l : list string) (w : World) : World :=
  {| self := self w; wire := wire w; inbound := inbound w; clock := clock w;
     ticks := ticks w; reachable := reachable w; called := l;
     close_fails := close_fails w |}.
Definition set_close_fails (b : bool) (w : World) : World :=
  {| self := self w; wire := wire w; inbound := inbound w; clock := clock w;
     ticks := ticks w; reachable := reachable w; called := called w;
     close_fails := b |}.

Inductive result (A : Type) :=
  | Ok (a : A)
  | Raised (e : exn).
Arguments Ok {A} a.
Arguments Raised {A} e.

Definition M (A : Type) : Type := World → result A * World.

#[global] Instance M_ret : MRet M := λ A a w, (Ok a, w).
#[global] Instance M_bind : MBind M := λ A B f m w,
  match m w with
  | (Ok a, w') => f a w'
  | (Raised e, w') => (Raised e, w')
  end.

Definition raise {A} (e : exn) : M A := λ w, (Raised e, w).

(** Reading an attribute of [self], and assigning to one. *)
Definition attr {A} (proj : Connection → A) : M A := λ w, (Ok (proj (self w)), w).
Definition assign (f : Connection → Connection) : M unit :=
  λ w, (Ok tt, set_self (f (self w)) w).

(** [try: body except classes: handler]. *)
Definition try_except {A} (body : M A) (classes : list exc_class)
    (handler : M A) : M A := λ w,
  match body w with
  | (Raised e, w') =>
      if isinstance e classes then handler w' else (Raised e, w')
  | r => r
  end.

(** [try: body finally: final]; an exception of [final] replaces the
    pending one. *)
Definition try_finally {A} (body : M A) (final : M unit) : M A := λ w,
  match body w with
  | (r, w') =>
      match final w' with
      | (Ok _, w'') => (r, w'')
      | (Raised e, w'') => (Raised e, w'')
      end
  end.

(** [time.monotonic()]: the next reading of the clock. *)
Definition monotonic : M Z := λ w, (Ok (clock w (ticks w)), set_ticks (S (ticks w)) w).

(** Calling a user callback: recorded by name. *)
Definition call (name : string) : M unit :=
  λ w, (Ok tt, set_called (called w ++ [name]) w).

(** Modelled from the spec: the frame writer built by [frame_writer_cls]
    ([amqp/method_framing.py], not in the sources at hand), section 2
    "Outbound: handler, Method Codec encode, Frame Transport write,
    serialized by a single writer to preserve ordering".  A successful write
    is counted in [bytes_sent] ("Number of successful writes to socket"). *)
Definition write_frame (f : out_frame) : M unit := λ w,
  (Ok tt, set_wire (wire w ++ [f])
            (set_self (set_bytes_sent (bytes_sent (self w) + 1) (self w)) w)).

(** ** Module constants *)

(** [LIBRARY_PROPERTIES]; the package version is a parameter. *)
Definition LIBRARY_PROPERTIES (version : string) : gmap string value :=
  {[ "product" := VStr "py-amqp"; "product_version" := VStr version ]}.

Definition NEGOTIATE_CAPABILITIES : gmap string value :=
  {[ "consumer_cancel_notify" := VBool true;
     "connection.blocked" := VBool true;
     "authentication_failure_close" := VBool true ]}.

(** ** Construction *)

(** [array('H', range(n, 0, -1))]: the ids [n, n-1, ..., 1]; an id above
    65535 does not fit an unsigned short. *)
Definition array_H_range_down (n : Z) : result (list Z) :=
  if 65535 <? n then Raised (builtin OverflowError)
  else Ok (reverse (seqZ 1 n)).

(** [Connection.__init__].  [negotiate_capabilities_] and
    [library_properties] are the class attributes.  [login_response] is the
    response after the constructor has filled it in from [userid] and
    [password] through the table codec, which is not modelled.  The call
    [super().__init__(self, 0)] goes to [ChannelBase], which is not in the
    sources at hand; by section 3 of the spec the connection "is itself
    registered as channel 0" and refers to itself as its connection. *)
Definition __init__
    (negotiate_capabilities_ library_properties : gmap string value)
    (login_method_ : string) (login_response_ : option string)
    (virtual_host_ locale_ : string)
    (client_properties_ : option (gmap string value))
    (channel_max_ frame_max_ : option Z) (heartbeat_ : option Z)
    (on_blocked_ on_unblocked_ : bool) : result Connection :=
  let channel_max_ := opt_or_else channel_max_ 65535 in
  let frame_max_ := opt_or_else frame_max_ 131072 in
  match array_H_range_down channel_max_ with
  | Raised e => Raised e
  | Ok ids =>
      Ok {| negotiate_capabilities := negotiate_capabilities_;
            client_properties := default ∅ client_properties_ ∪ library_properties;
            login_method := login_method_;
            login_response := login_response_;
            locale := locale_;
            virtual_host := virtual_host_;
            _handshake_complete := false;
            channels := Some {[ 0 := ChSelf ]};
            connection := Some ChSelf;
            _frame_writer := false;
            _on_inbound_frame := false;
            _transport := None;
            channel_max := channel_max_;
            frame_max := frame_max_;
            client_heartbeat := heartbeat_;
            on_blocked := on_blocked_;
            on_unblocked := on_unblocked_;
            _avail_channel_ids := ids;
            version_major := 0;
            version_minor := 0;
            server_properties := ∅;
            mechanisms := [];
            locales := [];
            heartbeat := None;
            server_heartbeat := None;
            last_heartbeat_sent := 0;
            last_heartbeat_received := 0;
            bytes_sent := 0;
            bytes_recv := 0;
            prev_sent := None;
            prev_recv := None |}
  end.

(** A world around a fresh connection, with a transport that closes
    without error. *)
Definition world_of (c : Connection) (frames : list in_frame) (clk : nat → Z)
    (up : bool) : World :=
  {| self := c; wire := []; inbound := frames; clock := clk; ticks := 0%nat;
     reachable := up; called := []; close_fails := false |}.

(** ** Lazy accessors *)

(** The properties [transport], [on_inbound_frame] and [frame_writer]: when
    the attribute is unset they warn and call [self.connect()], which only
    creates a coroutine that is never awaited, and return the attribute as it
    is, [None].  The warning is not modelled. *)
Definition transport : M (option Transport) := attr _transport.
Definition on_inbound_frame : M bool := attr _on_inbound_frame.
Definition frame_writer : M bool := attr _frame_writer.

(** [self.frame_writer(...)]: calling [None] is a [TypeError]. *)
Definition call_frame_writer (f : out_frame) : M unit :=
  fw ← frame_writer;
  if fw : bool then write_frame f else raise (builtin TypeError).

(** Modelled from the spec: [send_method] of [amqp/abstract_channel.py] (not
    in the sources at hand), section 2: the method is encoded and written on
    the channel of the sender, here channel 0, and [callback] runs once it is
    written. *)
Definition send_method (m : out_method) (callback : option (M unit)) : M unit :=
  call_frame_writer (MethodFrame 0 m);;
  match callback with
  | Some k => k
  | None => mret tt
  end.

(** ** The handshake handlers *)

(** The dict comprehension of [_on_start]: the entries of the negotiation
    table whose key the server capabilities map to a truthy value.
    [scap.get] is looked up once per entry, so capabilities that are no
    table fail as soon as there is an entry. *)
Definition wanted_capabilities (scap : value) (table : gmap string value)
    : result (gmap string value) :=
  match scap with
  | VTable s => Ok (filter (λ kv, truthy_get s kv.1) table)
  | _ => match map_to_list table with
         | [] => Ok ∅
         | _ :: _ => Raised (builtin AttributeError)
         end
  end.

(** [server_properties.get('capabilities') or {}]. *)
Definition capabilities_or_empty (props : gmap string value) : value :=
  match props !! "capabilities" with
  | Some v => if truthy v then v else VTable ∅
  | None => VTable ∅
  end.

Definition _on_start (version_major_ version_minor_ : Z)
    (server_properties_ : gmap string value) (mechanisms_ locales_ : string)
    : M unit :=
  assign (set_version_major version_major_);;
  assign (set_version_minor version_minor_);;
  assign (set_server_properties server_properties_);;
  assign (set_mechanisms (split_on " "%char mechanisms_));;
  assign (set_locales (split_on " "%char locales_));;
  let scap := capabilities_or_empty server_properties_ in
  props ← attr client_properties;
  let cap := default (VTable ∅) (props !! "capabilities") in
  assign (set_client_properties (<["capabilities" := cap]> props));;
  match cap with
  | VTable capt =>
      table ← attr negotiate_capabilities;
      match wanted_capabilities scap table with
      | Raised e => raise e
      | Ok new =>
          let capt' := new ∪ capt in
          let props' :=
            match map_to_list capt' with
            | [] => delete "capabilities" props
            | _ :: _ => <["capabilities" := VTable capt']> props
            end in
          assign (set_client_properties props');;
          lm ← attr login_method;
          lr ← attr login_response;
          lc ← attr locale;
          send_method (Connection_StartOk props' lm lr lc) None
      end
  | _ => raise (builtin AttributeError)
  end.

(** [_on_secure]: the body is empty. *)
Definition _on_secure (challenge : string) : M unit := mret tt.

(** [max(a, b)] and [min(a, b)] of Python: the first argument unless the
    second is strictly beyond it. *)
Definition py_max (a b : Z) : Z := if a <? b then b else a.
Definition py_min (a b : Z) : Z := if b <? a then b else a.

Definition _on_tune_sent : M unit :=
  vh ← attr virtual_host;
  send_method (Connection_Open vh "" false) None.

Definition _on_tune (channel_max_ frame_max_ server_heartbeat_ : Z) : M unit :=
  chb ← attr client_heartbeat;
  let client_heartbeat_ := opt_or_else chb 0 in
  cm ← attr channel_max;
  assign (set_channel_max (or_else channel_max_ cm));;
  fm ← attr frame_max;
  assign (set_frame_max (or_else frame_max_ fm));;
  let shb := or_else server_heartbeat_ 0 in
  assign (set_server_heartbeat (Some shb));;
  (if (shb =? 0) || (client_heartbeat_ =? 0)
   then assign (set_heartbeat (Some (py_max shb client_heartbeat_)))
   else assign (set_heartbeat (Some (py_min shb client_heartbeat_))));;
  (if falsy chb then assign (set_heartbeat (Some 0)) else mret tt);;
  cm' ← attr channel_max;
  fm' ← attr frame_max;
  hb ← attr heartbeat;
  send_method (Connection_TuneOk cm' fm' (default 0 hb)) (Some _on_tune_sent).

(** [self.on_open] is a promise of the caller; fulfilling it is recorded. *)
Definition _on_open_ok : M unit :=
  assign (set__handshake_complete true);;
  call "on_open".

(** The property [connected]: [self._transport and
    self._transport.connected], as a truth value. *)
Definition is_connected (c : Connection) : bool :=
  match _transport c with
  | Some t => connected t
  | None => false
  end.

(** ** Teardown *)

(** Modelled from the spec: [Channel.collect] of [amqp/channel.py] (not in
    the sources at hand), section 3: the id of a destroyed channel is
    "returned to the pool" and the channel leaves the registry. *)
Definition channel_collect (ch : channel_obj) : M unit :=
  match ch with
  | ChSelf => mret tt
  | ChChannel i _ =>
      chs ← attr channels;
      ids ← attr _avail_channel_ids;
      assign (set_channels (delete i <$> chs));;
      assign (set__avail_channel_ids (ids ++ [i]))
  end.

Fixpoint for_each {A} (f : A → M unit) (l : list A) : M unit :=
  match l with
  | [] => mret tt
  | x :: rest => f x;; for_each f rest
  end.

Definition is_self (ch : channel_obj) : bool :=
  match ch with
  | ChSelf => true
  | ChChannel _ _ => false
  end.

(** Modelled from the spec: [Transport.close] of [amqp/transport.py] (not
    in the sources at hand), section 6 "close()" and section 7 "Transport
    errors during best-effort teardown (collect()) are swallowed": closing
    raises [socket.error] when the connection is already closed on the other
    end, as the comment in [collect] has it, and has no effect on the
    connection object otherwise. *)
Definition Transport_close : M unit := λ w,
  if close_fails w then (Raised (builtin socket_error), w) else (Ok tt, w).

(** [collect]: [self.transport] of a connection without transport is [None],
    and [None.close] an [AttributeError], as is [None.values].  A
    [socket.error] of [close] is caught, and the channels are then not
    collected. *)
Definition collect : M unit :=
  try_finally
    (try_except
       (t ← transport;
        match t with
        | None => raise (builtin AttributeError)
        | Some _ =>
            Transport_close;;
            chs ← attr channels;
            match chs with
            | None => raise (builtin AttributeError)
            | Some m =>
                let temp_list :=
                  filter (λ ch, is_self ch = false) (snd <$> map_to_list m) in
                for_each channel_collect temp_list
            end
        end)
       [socket_error]
       (mret tt))
    (assign (set__transport None);;
     assign (set_connection None);;
     assign (set_channels None)).

(** ** The pool of channel ids *)

(** [array.pop()]: the last item, or nothing when the array is empty. *)
Definition array_pop (a : list Z) : option (Z * list Z) :=
  match reverse a with
  | [] => None
  | x :: r => Some (x, reverse r)
  end.

(** [array.remove(x)]: the array without the first occurrence of [x], or
    nothing when [x] does not occur. *)
Fixpoint array_remove (x : Z) (a : list Z) : option (list Z) :=
  match a with
  | [] => None
  | y :: rest =>
      if bool_decide (y = x) then Some rest
      else cons y <$> array_remove x rest
  end.

(** [len(self.channels)] is a [TypeError] once the registry is [None]. *)
Definition _get_free_channel_id : M Z :=
  ids ← attr _avail_channel_ids;
  match array_pop ids with
  | Some (i, rest) => assign (set__avail_channel_ids rest);; mret i
  | None =>
      chs ← attr channels;
      match chs with
      | None => raise (builtin TypeError)
      | Some m =>
          cm ← attr channel_max;
          raise (Exn ResourceError
                   ("No free channel ids, current=" +:+ pretty (Z.of_nat (size m))
                    +:+ ", channel_max=" +:+ pretty cm)
                   (Some spec_Channel_Open) None)
      end
  end.

Definition _claim_channel_id (channel_id : Z) : M unit :=
  ids ← attr _avail_channel_ids;
  match array_remove channel_id ids with
  | Some rest => assign (set__avail_channel_ids rest)
  | None =>
      raise (Exn ConnectionError
               ("Channel " +:+ pretty channel_id +:+ " already open") None None)
  end.

(** Modelled from the spec: the constructor of [Channel]
    ([amqp/channel.py], not in the sources at hand), section 4.1
    "channel(id?)": a new channel takes an id from the pool when none is
    requested, else claims the requested id, and is registered under it. *)
Definition Channel_new (channel_id : option Z) : M channel_obj :=
  i ← match channel_id with
      | Some i => _claim_channel_id i;; mret i
      | None => _get_free_channel_id
      end;
  chs ← attr channels;
  assign (set_channels (<[i := ChChannel i false]> <$> chs));;
  mret (ChChannel i false).

(** Modelled from the spec: [Channel.open] of [amqp/channel.py] (not in the
    sources at hand), section 4.1 "performs the channel-open handshake on
    it": Open is written on the channel, which is open from then on; the
    wait for the reply of the broker is not modelled. *)
Definition Channel_open (ch : channel_obj) : M channel_obj :=
  match ch with
  | ChSelf => mret ChSelf
  | ChChannel i _ =>
      call_frame_writer (MethodFrame i Channel_Open);;
      chs ← attr channels;
      assign (set_channels (<[i := ChChannel i true]> <$> chs));;
      mret (ChChannel i true)
  end.

(** [channel]: [self.channels[None]] is a [KeyError], as for any id that is
    not registered.  The [callback] argument is handed to the new channel
    and plays no part in the connection. *)
Definition channel (channel_id : option Z) : M channel_obj :=
  chs ← attr channels;
  match chs with
  | Some m =>
      match channel_id ≫= (m !!.) with
      | Some ch => mret ch
      | None =>
          ch ← Channel_new channel_id;
          Channel_open ch
      end
  | None =>
      raise (Exn RecoverableConnectionError "Connection already closed." None None)
  end.

(** ** Closing *)

Definition _on_close_ok : M unit := collect.

Definition _x_close_ok : M unit :=
  send_method Connection_CloseOk (Some _on_close_ok).

Definition _on_close (reply_code_ : Z) (reply_text_ : string)
    (class_id method_id : Z) : M unit :=
  _x_close_ok;;
  raise (error_for_code reply_code_ reply_text_ (class_id, method_id)
           ConnectionError).

Definition _on_blocked : M unit :=
  cb ← attr on_blocked;
  if cb : bool then call "on_blocked" else mret tt.

Definition _on_unblocked : M unit :=
  cb ← attr on_unblocked;
  if cb : bool then call "on_unblocked" else mret tt.

(** ** The heartbeat monitor *)

Definition send_heartbeat : M unit := call_frame_writer HeartbeatFrame.

(** [prev is None or prev != now]. *)
Definition changed (prev : option Z) (now : Z) : bool :=
  match prev with
  | None => true
  | Some p => negb (p =? now)
  end.

Definition ConnectionForced_missed : exn :=
  Exn ConnectionForced "Too many heartbeats missed" None None.

(** [heartbeat_tick]; the debug log lines are not modelled.  The last clock
    reading is taken only when [last_heartbeat_received] is truthy, as [and]
    evaluates its right operand only then. *)
Definition heartbeat_tick : M unit :=
  hb ← attr heartbeat;
  if falsy hb then mret tt else
  let interval := default 0 hb in
  sent_now ← attr bytes_sent;
  recv_now ← attr bytes_recv;
  ps ← attr prev_sent;
  (if changed ps sent_now
   then t ← monotonic; assign (set_last_heartbeat_sent t)
   else mret tt);;
  pr ← attr prev_recv;
  (if changed pr recv_now
   then t ← monotonic; assign (set_last_heartbeat_received t)
   else mret tt);;
  now ← monotonic;
  assign (set_prev_sent (Some sent_now));;
  assign (set_prev_recv (Some recv_now));;
  lhs ← attr last_heartbeat_sent;
  (if lhs + interval <? now
   then send_heartbeat;; t ← monotonic; assign (set_last_heartbeat_sent t)
   else mret tt);;
  lhr ← attr last_heartbeat_received;
  if lhr =? 0 then mret tt else
  t ← monotonic;
  if lhr + 2 * interval <? t then raise ConnectionForced_missed else mret tt.

(** ** Inbound dispatch *)

(** The table of [_setup_listeners]; a method of the channel class has no
    entry on the connection. *)
Definition dispatch_method (m : in_method) : M unit :=
  match m with
  | Connection_Start vmaj vmin props mechs locs => _on_start vmaj vmin props mechs locs
  | Connection_OpenOk => _on_open_ok
  | Connection_Secure challenge => _on_secure challenge
  | Connection_Tune cm fm hb => _on_tune cm fm hb
  | Connection_Close code text cls mth => _on_close code text cls mth
  | Connection_Blocked => _on_blocked
  | Connection_Unblocked => _on_unblocked
  | Connection_CloseOk_in => _on_close_ok
  | Channel_method => mret tt
  end.

(** [on_inbound_method]: [self.channels[channel_id].dispatch_method(...)];
    subscripting [None] is a [TypeError].  What a [Channel] does with its
    method is outside the connection. *)
Definition on_inbound_method (channel_id : Z) (m : in_method) : M unit :=
  chs ← attr channels;
  match chs with
  | None => raise (builtin TypeError)
  | Some reg =>
      match reg !! channel_id with
      | None => raise (builtin KeyError)
      | Some ChSelf => dispatch_method m
      | Some (ChChannel _ _) => mret tt
      end
  end.

(** Modelled from the spec: the frame handler built by [frame_handler_cls]
    ([amqp/method_framing.py], not in the sources at hand), section 2
    "inbound bytes, Frame Transport, frame dispatcher (routes by
    channel-id)".  A successful read is counted in [bytes_recv] ("Number of
    successful reads from socket"); a heartbeat frame carries no method. *)
Definition handle_frame (f : in_frame) : M unit :=
  n ← attr bytes_recv;
  assign (set_bytes_recv (n + 1));;
  match f with
  | InMethod channel_id m => on_inbound_method channel_id m
  | InHeartbeat => mret tt
  end.

(** Modelled from the spec: [Transport.read_frame], section 6 "read_frame
    (timeout) -> Frame | raises timeout/IOError": the next frame of the
    broker, or a timeout when there is none. *)
Definition read_frame : M in_frame := λ w,
  match inbound w with
  | f :: rest => (Ok f, set_inbound rest w)
  | [] => (Raised (builtin socket_timeout), w)
  end.

(** [blocking_read]: without transport, [None.having_timeout] is an
    [AttributeError]; calling an unset [on_inbound_frame] a [TypeError]. *)
Definition blocking_read : M unit :=
  t ← transport;
  match t with
  | None => raise (builtin AttributeError)
  | Some _ =>
      frame ← read_frame;
      h ← on_inbound_frame;
      if h : bool then handle_frame frame else raise (builtin TypeError)
  end.

Definition drain_events : M unit := blocking_read.

(** ** Connecting *)

(** Modelled from the spec: [Transport(...)] and [Transport.connect],
    section 6 "connect(host, ...) -> stream": a transport that is connected
    afterwards, or an I/O error when the broker cannot be reached. *)
Definition Transport_connect : M unit := λ w,
  if reachable w
  then (Ok tt, set_self (set__transport (Some {| connected := true |}) (self w)) w)
  else (Raised (builtin socket_error), w).

(** [while not self._handshake_complete: await self.drain_events(...)].  Each
    turn takes one frame of the broker or raises, so the pending frames
    bound the loop; [frames] is [inbound] at the head of the loop. *)
Fixpoint handshake_loop (frames : list in_frame) : M unit := λ w,
  if _handshake_complete (self w) then (Ok tt, w)
  else match frames with
       | [] => drain_events w
       | _ :: rest => (drain_events;; handshake_loop rest) w
       end.

(** [connect]; [callback] is a coroutine function of the caller. *)
Definition connect (callback : option (M unit)) : M unit := λ w,
  if is_connected (self w)
  then match callback with
       | Some k => k w
       | None => (Ok tt, w)
       end
  else (assign (set__transport (Some {| connected := false |}));;
        Transport_connect;;
        assign (set__on_inbound_frame true);;
        assign (set__frame_writer true);;
        frames ← (λ w', (Ok (inbound w'), w'));
        handshake_loop frames) w.

(** The property [server_capabilities]. *)
Definition server_capabilities (c : Connection) : value :=
  capabilities_or_empty (server_properties c).

(** ** Runs, and the worlds of the examples *)

(** What a run of a method from a world gives. *)
Definition raises {A} (m : M A) (w : World) (e : exn) : Prop := fst (m w) = Raised e.
Definition returns {A} (m : M A) (w : World) (a : A) : Prop := fst (m w) = Ok a.
Definition world_after {A} (m : M A) (w : World) : World := snd (m w).

(** The attributes of the class before [__init__] has run: the class-level
    defaults of the source, and nothing registered.  It stands for the
    object in the examples when a constructor call raises. *)
Definition Connection_class : Connection :=
  {| negotiate_capabilities := NEGOTIATE_CAPABILITIES;
     client_properties := ∅;
     login_method := "";
     login_response := None;
     locale := "";
     virtual_host := "";
     _handshake_complete := false;
     channels := None;
     connection := None;
     _frame_writer := false;
     _on_inbound_frame := false;
     _transport := None;
     channel_max := 0;
     frame_max := 0;
     client_heartbeat := None;
     on_blocked := false;
     on_unblocked := false;
     _avail_channel_ids := [];
     version_major := 0;
     version_minor := 0;
     server_properties := ∅;
     mechanisms := [];
     locales := [];
     heartbeat := None;
     server_heartbeat := None;
     last_heartbeat_sent := 0;
     last_heartbeat_received := 0;
     bytes_sent := 0;
     bytes_recv := 0;
     prev_sent := None;
     prev_recv := None |}.

(** [Connection(channel_max=..., heartbeat=...)] with the other arguments at
    their defaults, and the object it returns. *)
Definition Connection_new (channel_max_ heartbeat_ : option Z) : result Connection :=
  __init__ NEGOTIATE_CAPABILITIES (LIBRARY_PROPERTIES "0") "AMQPLAIN" None
    "/" "en_US" None channel_max_ None heartbeat_ false false.

Definition object_of (r : result Connection) : Connection :=
  match r with
  | Ok c => c
  | Raised _ => Connection_class
  end.

(** A connection after [connect] has installed transport, frame handler and
    frame writer, in a world with the given clock. *)
Definition established (c : Connection) (clk : nat → Z) : World :=
  world_of
    (set__frame_writer true
       (set__on_inbound_frame true
          (set__transport (Some {| connected := true |}) c)))
    [] clk true.

(** The world of the examples: [Connection(channel_max=n, heartbeat=hb)],
    established, with a clock that stands still. *)
Definition sample_world (n : Z) (hb : Z) : World :=
  established (object_of (Connection_new (Some n) (Some hb))) (λ _, 0).

(** A connection with the heartbeat negotiated by Tune, in a world with the
    given clock. *)
Definition tuned_world (client_hb server_hb : Z) (clk : nat → Z) : World :=
  world_after (_on_tune 0 0 server_hb)
    (established (object_of (Connection_new (Some 3) (Some client_hb))) clk).

(** The client properties of the StartOk written last. *)
Definition sent_client_properties (w : World) : option (gmap string value) :=
  match last (wire w) with
  | Some (MethodFrame _ (Connection_StartOk props _ _ _)) => Some props
  | _ => None
  end.

(** The capability table inside client properties, if any. *)
Definition capabilities_of (props : gmap string value) : option (gmap string value) :=
  match props !! "capabilities" with
  | Some (VTable caps) => Some caps
  | _ => None
  end.

Definition consumer_cancel_notify_only (b : bool) : gmap string value :=
  {[ "capabilities" := VTable {[ "consumer_cancel_notify" := VBool b ]} ]}.

(** A world with the registry and the pool blanked: two worlds with the
    same image differ in the registry and the pool only. *)
Definition without_registry (w : World) : World :=
  set_self (set__avail_channel_ids [] (set_channels None (self w))) w.

(** The clock does not run away during a tick: every reading a tick can
    take after the sampling of the receive side is within [d] of that
    sample. *)
Definition unstalled (w : World) (d : Z) : Prop :=
  ∀ k, (ticks w < k ≤ ticks w + 4)%nat → clock w k ≤ clock w (S (ticks w)) + d.

(** What the loop of [connect] depends on: the transport, the flag of the
    handshake and the frames still to come. *)
Definition link_state (w : World) : option Transport * bool * list in_frame :=
  (_transport (self w), _handshake_complete (self w), inbound w).

(** The link is up, or it has been torn down before the handshake was
    complete. *)
Definition link_alive (w : World) : Prop :=
  is_connected (self w) = true
  ∨ (_transport (self w) = None ∧ _handshake_complete (self w) = false).

(** The pool holds no id twice and no id of a registered channel. *)
Definition pool_invariant (c : Connection) : Prop :=
  NoDup (_avail_channel_ids c)
  ∧ ∀ reg i, channels c = Some reg → i ∈ _avail_channel_ids c → reg !! i = None.

(** [n] ticks in a row, up to the first that raises. *)
Fixpoint tick_times (n : nat) : M unit :=
  match n with
  | O => mret tt
  | S n' => heartbeat_tick;; tick_times n'
  end.

(** [k] calls of [_get_free_channel_id] in a row, up to the first that
    raises; the ids in the order they were handed out. *)
Fixpoint allocate_many (k : nat) : M (list Z) :=
  match k with
  | O => mret []
  | S k' =>
      i ← _get_free_channel_id;
      rest ← allocate_many k';
      mret (i :: rest)
  end.

(** A request to the pool: a free id, or an id of the caller's choice. *)
Inductive pool_op :=
  | Allocate
  | Claim (channel_id : Z).

Definition pool_op_run (op : pool_op) : M Z :=
  match op with
  | Allocate => _get_free_channel_id
  | Claim i => _claim_channel_id i;; mret i
  end.

(** A sequence of requests to the pool by a caller that catches the error
    of a request that fails and goes on: the ids it has obtained, in order,
    and the world it ends in. *)
Fixpoint pool_ops_run (ops : list pool_op) (w : World) : list Z * World :=
  match ops with
  | [] => ([], w)
  | op :: rest =>
      match pool_op_run op w with
      | (Ok i, w') => let (ids, w'') := pool_ops_run rest w' in (i :: ids, w'')
      | (Raised _, w') => pool_ops_run rest w'
      end
  end.

(** A world with the pool blanked: two worlds with the same image differ
    in the pool only. *)
Definition without_pool (w : World) : World :=
  set_self (set__avail_channel_ids [] (self w)) w.

(** A world with everything [collect] and the channels it collects can
    touch blanked: the transport, the back reference, the registry and the
    pool. *)
Definition without_link (w : World) : World :=
  set_self
    (set__transport None (set_connection None
       (set__avail_channel_ids [] (set_channels None (self w))))) w.

(** [sep.join(l)]. *)
Fixpoint join_with (sep : string) (l : list string) : string :=
  match l with
  | [] => ""
  | x :: rest =>
      match rest with
      | [] => x
      | _ :: _ => x +:+ sep +:+ join_with sep rest
      end
  end.

(** [c in s] for a character [c]. *)
Fixpoint contains (c : Ascii.ascii) (s : string) : bool :=
  match s with
  | EmptyString => false
  | String c' rest => Ascii.eqb c' c || contains c rest
  end.

(** The clock advances by at most [d] between any two of the readings a
    tick can take (five at most). *)
Definition steady (w : World) (d : Z) : Prop :=
  ∀ j k, (ticks w ≤ j)%nat → (j ≤ k)%nat → (k ≤ ticks w + 4)%nat →
         clock w k ≤ clock w j + d.

(** The world [connect] hands to its loop: the transport connected, the
    frame handler and the frame writer installed. *)
Definition linked (w : World) : World :=
  set_self
    (set__frame_writer true
       (set__on_inbound_frame true
          (set__transport (Some {| connected := true |}) (self w)))) w.

(** The world after a frame has been read and counted. *)
Definition frame_taken (rest : list in_frame) (w : World) : World :=
  set_self (set_bytes_recv (bytes_recv (self w) + 1) (self w)) (set_inbound rest w).

(** The read side of a world: the frames to come and the count of reads. *)
Definition read_state (w : World) : list in_frame * Z :=
  (inbound w, bytes_recv (self w)).

(** * Properties *)

(** Unfolding of the monad and of the attribute accesses. *)
Ltac run :=
  cbv [mbind M_bind mret M_ret attr assign raise raises returns world_after
       transport frame_writer on_inbound_frame] in *;
  cbn [fst snd self wire inbound clock ticks reachable called close_fails
       set_self set_wire set_inbound set_ticks set_called] in *.

(** Full unfolding of the monad, the primitives, the setters and the
    projections: on a world given by its fields, a method body computes down
    to its cases. *)
Ltac compute_world :=
  cbv [mbind M_bind mret M_ret attr assign raise raises returns world_after
       transport frame_writer on_inbound_frame monotonic call
       send_method call_frame_writer write_frame
       self wire inbound clock ticks reachable called close_fails
       set_self set_wire set_inbound set_ticks set_called
       negotiate_capabilities client_properties login_method login_response
       locale virtual_host _handshake_complete channels connection
       _frame_writer _on_inbound_frame _transport channel_max frame_max
       client_heartbeat on_blocked on_unblocked _avail_channel_ids
       version_major version_minor server_properties mechanisms locales
       heartbeat server_heartbeat last_heartbeat_sent last_heartbeat_received
       bytes_sent bytes_recv prev_sent prev_recv
       set_client_properties set__handshake_complete set_channels
       set_connection set__frame_writer set__on_inbound_frame set__transport
       set_channel_max set_frame_max set__avail_channel_ids set_version_major
       set_version_minor set_server_properties set_mechanisms set_locales
       set_heartbeat set_server_heartbeat set_last_heartbeat_sent
       set_last_heartbeat_received set_bytes_sent set_bytes_recv
       set_prev_sent set_prev_recv fst snd] in *.

(** A world given by its fields, the frame writer and the client heartbeat
    named. *)
Ltac destruct_world w fw chb :=
  let c := fresh "c" in
  destruct w as [c ? ? ? ? ? ? ?];
  destruct c as [? ? ? ? ? ? ? ? ? fw ? ? ? ? chb ? ? ? ? ? ? ? ? ? ? ? ? ? ? ? ?].

(** The branches of a method on a world given by its fields: compute, and
    split on the innermost test that blocks the computation. *)
Ltac cases :=
  repeat (compute_world;
          match goal with
          | |- context [match ?c with _ => _ end] =>
              lazymatch c with
              | context [match _ with _ => _ end] => fail
              | _ => destruct c eqn:?
              end
          end);
  compute_world.

(** Comparisons of integers as propositions. *)
Ltac reflect_Z :=
  repeat match goal with
  | H : (_ <? _) = true |- _ => apply Z.ltb_lt in H
  | H : (_ <? _) = false |- _ => apply Z.ltb_ge in H
  | H : (_ =? _) = true |- _ => apply Z.eqb_eq in H
  | H : (_ =? _) = false |- _ => apply Z.eqb_neq in H
  end.

(** ** The pool of channel ids *)

Section Pool.

Implicit Types (a : list Z) (x i j : Z).

Lemma array_pop_None a : array_pop a = None ↔ a = [].
Proof.
  unfold array_pop. split.
  - destruct (reverse a) eqn:E; [|done]. intros _.
    apply (f_equal reverse) in E. by rewrite reverse_involutive in E.
  - by intros ->.
Qed.

Lemma array_pop_Some a x r : array_pop a = Some (x, r) ↔ a = r ++ [x].
Proof.
  unfold array_pop. split.
  - destruct (reverse a) as [|y l] eqn:E; [done|].
    intros [= -> <-]. apply (f_equal reverse) in E.
    rewrite reverse_involutive in E. by rewrite E, reverse_cons.
  - intros ->. by rewrite reverse_snoc, reverse_involutive.
Qed.

Lemma array_remove_None x a : array_remove x a = None ↔ x ∉ a.
Proof.
  induction a as [|y a IH]; simpl.
  - split; [intros _; apply not_elem_of_nil | done].
  - case_bool_decide as E.
    + subst. split; [done|]. intros []. by left.
    + rewrite fmap_None, IH, not_elem_of_cons. intuition congruence.
Qed.

Lemma array_remove_Some x a r :
  array_remove x a = Some r →
  ∃ l1 l2, a = l1 ++ x :: l2 ∧ (x ∉ l1) ∧ r = l1 ++ l2.
Proof.
  revert r. induction a as [|y a IH]; simpl; [done|]. intros r.
  case_bool_decide as E.
  - intros [= <-]. subst. exists [], a. split_and!; [done| |done].
    apply not_elem_of_nil.
  - destruct (array_remove x a) as [r'|]; [|done]. intros [= <-].
    destruct (IH r' eq_refl) as (l1 & l2 & -> & Hl1 & ->).
    exists (y :: l1), l2. split_and!; [done| |done].
    rewrite not_elem_of_cons. split; [congruence | done].
Qed.

Lemma NoDup_remove_middle l1 l2 x :
  NoDup (l1 ++ x :: l2) →
  NoDup (l1 ++ l2) ∧ (x ∉ l1 ++ l2) ∧
  (∀ j, j ≠ x → j ∈ l1 ++ l2 ↔ j ∈ l1 ++ x :: l2).
Proof.
  intros Hnd. apply NoDup_app in Hnd as (H1 & H12 & H2).
  apply NoDup_cons in H2 as [Hx H2]. split_and!.
  - apply NoDup_app. split_and!; [done| |done].
    intros y Hy Hy2. apply (H12 y Hy). by right.
  - rewrite elem_of_app. intros [Hin|Hin]; [|done].
    apply (H12 x Hin). by left.
  - intros j Hj. rewrite !elem_of_app, elem_of_cons. intuition congruence.
Qed.

(** The pool the constructor builds is the range [1..n], without
    duplicates. *)
Lemma array_H_range_down_spec n ids :
  array_H_range_down n = Ok ids →
  NoDup ids ∧ (∀ i, i ∈ ids ↔ 1 ≤ i ≤ n).
Proof.
  unfold array_H_range_down. case_match; [done|]. intros [= <-]. split.
  - rewrite reverse_Permutation. apply NoDup_seqZ.
  - intros i. rewrite elem_of_reverse, elem_of_seqZ. lia.
Qed.

End Pool.

Section PoolOperations.

Variable w : World.
#[local] Abbreviation pool := (_avail_channel_ids (self w)).

Lemma claim_channel_id_run (i : Z) :
  _claim_channel_id i w =
    match array_remove i pool with
    | Some rest => (Ok tt, set_self (set__avail_channel_ids rest (self w)) w)
    | None =>
        (Raised (Exn ConnectionError
                   ("Channel " +:+ pretty i +:+ " already open") None None), w)
    end.
Proof. unfold _claim_channel_id. run. by destruct (array_remove i pool). Qed.

Lemma get_free_channel_id_run :
  _get_free_channel_id w =
    match array_pop pool with
    | Some (i, rest) => (Ok i, set_self (set__avail_channel_ids rest (self w)) w)
    | None =>
        match channels (self w) with
        | None => (Raised (builtin TypeError), w)
        | Some m =>
            (Raised (Exn ResourceError
                       ("No free channel ids, current="
                        +:+ pretty (Z.of_nat (size m))
                        +:+ ", channel_max=" +:+ pretty (channel_max (self w)))
                       (Some spec_Channel_Open) None), w)
        end
    end.
Proof.
  unfold _get_free_channel_id. run.
  destruct (array_pop pool) as [[i rest]|]; [done|].
  by destruct (channels (self w)).
Qed.

End PoolOperations.

(** C4. [_claim_channel_id]: claiming an id fails exactly when the id is not
    in the pool of free ids; the failure is the connection error "Channel
    <id> already open" and leaves the world as it was; a claim that succeeds
    takes the id out of the pool and leaves the other ids in it.  The pool
    holds no id twice, as the constructor builds it. *)
Theorem claim_channel_id_fails_iff_not_free (w : World) (i : Z) :
  NoDup (_avail_channel_ids (self w)) →
  ((∃ e, raises (_claim_channel_id i) w e) ↔ i ∉ _avail_channel_ids (self w))
  ∧ (∀ e, raises (_claim_channel_id i) w e →
       e = Exn ConnectionError ("Channel " +:+ pretty i +:+ " already open") None None
       ∧ isinstance e connection_errors = true
       ∧ world_after (_claim_channel_id i) w = w)
  ∧ (returns (_claim_channel_id i) w tt →
       ∃ pool',
         world_after (_claim_channel_id i) w
           = set_self (set__avail_channel_ids pool' (self w)) w
         ∧ (i ∉ pool') ∧ NoDup pool'
         ∧ (∀ j, j ≠ i → j ∈ pool' ↔ j ∈ _avail_channel_ids (self w))).
Proof.
  intros Hnd. unfold raises, returns, world_after.
  rewrite claim_channel_id_run.
  destruct (array_remove i _) as [rest|] eqn:E; cbn [fst snd].
  - apply array_remove_Some in E as (l1 & l2 & Hpool & Hl1 & ->).
    rewrite Hpool in Hnd |- *.
    destruct (NoDup_remove_middle _ _ _ Hnd) as (Hnd' & Hout & Hkeep).
    split_and!.
    + split; [by intros [e ?]|]. intros [].
      rewrite elem_of_app, elem_of_cons. right. by left.
    + by intros e ?.
    + intros _. by exists (l1 ++ l2).
  - apply array_remove_None in E. split_and!.
    + split; [done|]. intros _. by eexists.
    + by intros e [= <-].
    + done.
Qed.

Lemma claim_channel_id_fails_iff_not_free_witness :
  NoDup (_avail_channel_ids (self (sample_world 3 0)))
  ∧ ((∃ e, raises (_claim_channel_id 2) (sample_world 3 0) e)
     ↔ 2 ∉ _avail_channel_ids (self (sample_world 3 0))).
Proof.
  assert (H : NoDup (_avail_channel_ids (self (sample_world 3 0)))).
  { apply (bool_decide_unpack _). vm_compute. exact I. }
  split; [exact H|].
  exact (proj1 (claim_channel_id_fails_iff_not_free (sample_world 3 0) 2 H)).
Defined.

(** C5. [_get_free_channel_id] on a live registry: it fails exactly when the
    pool is empty, with the [ResourceError] "No free channel ids, ..." that
    carries the signature of Channel.Open, and the failure leaves the world
    as it was: transport, registry and pool stay, so the connection and its
    channels go on; otherwise it returns an id of the pool, takes it out of
    the pool, and the id belongs to no registered channel, the pool and the
    registry being disjoint. *)
Theorem get_free_channel_id_fails_iff_empty (w : World) (reg : gmap Z channel_obj) :
  channels (self w) = Some reg →
  NoDup (_avail_channel_ids (self w)) →
  (∀ i, i ∈ _avail_channel_ids (self w) → reg !! i = None) →
  ((∃ e, raises _get_free_channel_id w e) ↔ _avail_channel_ids (self w) = [])
  ∧ (∀ e, raises _get_free_channel_id w e →
       e = Exn ResourceError
             ("No free channel ids, current=" +:+ pretty (Z.of_nat (size reg))
              +:+ ", channel_max=" +:+ pretty (channel_max (self w)))
             (Some spec_Channel_Open) None
       ∧ exc_type e = ResourceError
       ∧ world_after _get_free_channel_id w = w)
  ∧ (∀ i, returns _get_free_channel_id w i →
       i ∈ _avail_channel_ids (self w)
       ∧ reg !! i = None
       ∧ ∃ pool',
           world_after _get_free_channel_id w
             = set_self (set__avail_channel_ids pool' (self w)) w
           ∧ (i ∉ pool')
           ∧ (∀ j, j ≠ i → j ∈ pool' ↔ j ∈ _avail_channel_ids (self w))).
Proof.
  intros Hreg Hnd Hdisj. unfold raises, returns, world_after.
  rewrite get_free_channel_id_run, Hreg.
  destruct (array_pop _) as [[i rest]|] eqn:E; cbn [fst snd].
  - apply array_pop_Some in E.
    assert (Hpool : _avail_channel_ids (self w) = rest ++ i :: []) by done.
    rewrite Hpool in Hnd.
    destruct (NoDup_remove_middle _ _ _ Hnd) as (_ & Hout & Hkeep).
    rewrite app_nil_r in Hout, Hkeep. split_and!.
    + split; [by intros [e ?]|]. rewrite E. by destruct rest.
    + by intros e ?.
    + intros ? [= <-]. assert (i ∈ _avail_channel_ids (self w)).
      { rewrite Hpool, elem_of_app, elem_of_cons. right. by left. }
      split_and!; [done|by apply Hdisj|]. exists rest. split_and!; [done..|].
      intros j Hj. by rewrite Hpool, Hkeep.
  - apply array_pop_None in E. split_and!.
    + split; [done|]. intros _. by eexists.
    + by intros e [= <-].
    + done.
Qed.

Lemma get_free_channel_id_fails_iff_empty_witness :
  channels (self (sample_world 3 0)) = Some {[ 0 := ChSelf ]}
  ∧ NoDup (_avail_channel_ids (self (sample_world 3 0)))
  ∧ (∀ i, i ∈ _avail_channel_ids (self (sample_world 3 0)) →
       ({[ 0 := ChSelf ]} : gmap Z channel_obj) !! i = None)
  ∧ ((∃ e, raises _get_free_channel_id (sample_world 3 0) e)
     ↔ _avail_channel_ids (self (sample_world 3 0)) = []).
Proof.
  assert (H1 : channels (self (sample_world 3 0)) = Some {[ 0 := ChSelf ]})
    by reflexivity.
  assert (H2 : NoDup (_avail_channel_ids (self (sample_world 3 0)))).
  { apply (bool_decide_unpack _). vm_compute. exact I. }
  assert (H3 : ∀ i, i ∈ _avail_channel_ids (self (sample_world 3 0)) →
                 ({[ 0 := ChSelf ]} : gmap Z channel_obj) !! i = None).
  { intros i Hi. apply lookup_singleton_ne. intros <-. revert Hi.
    apply (bool_decide_unpack _). vm_compute. exact I. }
  split_and!; [exact H1|exact H2|exact H3|].
  exact (proj1 (get_free_channel_id_fails_iff_empty (sample_world 3 0) _ H1 H2 H3)).
Defined.

(** ** Tune: negotiation of the limits and of the heartbeat *)

Lemma py_max_Zmax a b : py_max a b = Z.max a b.
Proof. unfold py_max. destruct (Z.ltb_spec a b); lia. Qed.

Lemma py_min_Zmin a b : py_min a b = Z.min a b.
Proof. unfold py_min. destruct (Z.ltb_spec b a); lia. Qed.

(** The attributes [_on_tune] leaves behind, whether or not the reply can
    be written. *)
Lemma on_tune_attributes (w : World) (cm fm s : Z) :
  let c' := self (world_after (_on_tune cm fm s) w) in
  channel_max c' = or_else cm (channel_max (self w))
  ∧ frame_max c' = or_else fm (frame_max (self w))
  ∧ server_heartbeat c' = Some s
  ∧ heartbeat c' =
      Some (if falsy (client_heartbeat (self w)) then 0
            else if s =? 0 then py_max s (opt_or_else (client_heartbeat (self w)) 0)
            else py_min s (opt_or_else (client_heartbeat (self w)) 0))
  ∧ _avail_channel_ids c' = _avail_channel_ids (self w)
  ∧ client_heartbeat c' = client_heartbeat (self w).
Proof.
  destruct_world w fw chb.
  unfold _on_tune, _on_tune_sent. compute_world.
  replace (or_else s 0) with s by (unfold or_else; case_match; lia).
  destruct ((s =? 0) || (opt_or_else chb 0 =? 0)) eqn:Hor;
    destruct (falsy chb) eqn:Hf; destruct fw; repeat split.
  all: destruct chb as [c|]; [|done]; cbn in Hf, Hor |- *.
  all: unfold or_else in *; rewrite Hf in Hor |- *; cbn in Hor.
  all: rewrite Hf, orb_false_r in Hor; by rewrite Hor.
Qed.

(** C1. The heartbeat [_on_tune] negotiates, for the client heartbeat [c]
    given at construction and the server heartbeat [s] of Tune: 0 if [c] is
    0, else the larger of the two if [s] is 0, else the smaller of the two. *)
Theorem on_tune_negotiates_heartbeat (w : World) (c s cm fm : Z) :
  client_heartbeat (self w) = Some c →
  heartbeat (self (world_after (_on_tune cm fm s) w))
    = Some (if c =? 0 then 0 else if s =? 0 then Z.max c s else Z.min c s).
Proof.
  intros Hc.
  destruct (on_tune_attributes w cm fm s) as (_ & _ & _ & -> & _).
  rewrite Hc, py_max_Zmax, py_min_Zmin. cbn [falsy opt_or_else].
  unfold or_else. repeat case_match; f_equal; lia.
Qed.

(** The examples of the negotiation: client 0 and server 60 give 0, client
    30 and server 0 give 30, client 30 and server 60 give 30, client 60 and
    server 30 give 30. *)
Example on_tune_heartbeat_examples :
  let negotiate c s :=
    heartbeat (self (world_after (_on_tune 0 0 s)
      (established (object_of (Connection_new (Some 8) (Some c))) (λ _, 0)))) in
  negotiate 0 60 = Some 0 ∧ negotiate 30 0 = Some 30
  ∧ negotiate 30 60 = Some 30 ∧ negotiate 60 30 = Some 30.
Proof. by vm_compute. Qed.

(** The reply of [_on_tune] on an established connection: TuneOk with the
    negotiated values, then Open. *)
Lemma on_tune_replies (w : World) (cm fm s : Z) :
  _frame_writer (self w) = true →
  let w' := world_after (_on_tune cm fm s) w in
  returns (_on_tune cm fm s) w tt
  ∧ wire w' = wire w ++
      [MethodFrame 0 (Connection_TuneOk (channel_max (self w')) (frame_max (self w'))
                        (default 0 (heartbeat (self w'))));
       MethodFrame 0 (Connection_Open (virtual_host (self w)) "" false)].
Proof.
  destruct_world w fw chb. intros Hfw. cbn in Hfw. subst fw.
  unfold _on_tune, _on_tune_sent. compute_world.
  destruct (_ || _); destruct (falsy chb); cbn; by rewrite <- app_assoc.
Qed.

Lemma on_tune_negotiates_heartbeat_witness :
  client_heartbeat (self (sample_world 8 30)) = Some 30
  ∧ heartbeat (self (world_after (_on_tune 0 0 60) (sample_world 8 30)))
      = Some (if 30 =? 0 then 0 else if 60 =? 0 then Z.max 30 60 else Z.min 30 60).
Proof.
  split; [reflexivity|].
  apply (on_tune_negotiates_heartbeat (sample_world 8 30) 30 60 0 0). reflexivity.
Defined.

(** ** Tune and the pool of channel ids *)

(** The pool of a fresh connection is the range from 1 to the channel
    maximum of the constructor. *)
Lemma init_pool_is_range (n hb : option Z) (c : Connection) :
  Connection_new n hb = Ok c →
  channel_max c = opt_or_else n 65535
  ∧ NoDup (_avail_channel_ids c)
  ∧ (∀ i, i ∈ _avail_channel_ids c ↔ 1 ≤ i ≤ channel_max c).
Proof.
  unfold Connection_new, __init__.
  destruct (array_H_range_down _) as [ids|] eqn:E; [|done].
  intros [= <-]. cbn [channel_max _avail_channel_ids].
  split; [done|]. by apply array_H_range_down_spec.
Qed.

(** [_on_tune] does not touch the pool, whatever channel maximum it
    negotiates. *)
Lemma on_tune_leaves_pool (w : World) (cm fm s : Z) :
  _avail_channel_ids (self (world_after (_on_tune cm fm s) w))
    = _avail_channel_ids (self w)
  ∧ channel_max (self (world_after (_on_tune cm fm s) w))
    = or_else cm (channel_max (self w)).
Proof. destruct (on_tune_attributes w cm fm s) as (-> & _ & _ & _ & -> & _). done. Qed.

(** After Tune on a fresh connection the pool is still the range of the
    constructor: it agrees with the negotiated channel maximum only when
    the server proposes 0 or the very maximum of the client. *)
Lemma on_tune_pool_is_constructor_range (n hb : option Z) (c : Connection)
    (w : World) (cm fm s : Z) :
  Connection_new n hb = Ok c →
  self w = c →
  let c' := self (world_after (_on_tune cm fm s) w) in
  (∀ i, i ∈ _avail_channel_ids c' ↔ 1 ≤ i ≤ opt_or_else n 65535)
  ∧ channel_max c' = or_else cm (opt_or_else n 65535).
Proof.
  intros Hnew Hself c'. subst c'.
  destruct (on_tune_leaves_pool w cm fm s) as [-> ->]. rewrite Hself.
  destruct (init_pool_is_range n hb c Hnew) as (-> & _ & Hrange). done.
Qed.

(** C2. The pool after Tune at [Connection(channel_max=10)] and
    [Tune(channel_max=4, ...)]: the negotiated channel maximum is 4, the
    pool is still the range from 1 to 10 of the constructor, and so is not
    the range from 1 to the negotiated channel maximum. *)
Theorem on_tune_pool_not_rebuilt :
  let w := sample_world 10 0 in
  let c' := self (world_after (_on_tune 4 0 0) w) in
  returns (_on_tune 4 0 0) w tt
  ∧ channel_max c' = 4
  ∧ _avail_channel_ids c' = [10; 9; 8; 7; 6; 5; 4; 3; 2; 1]
  ∧ ¬ (∀ i, i ∈ _avail_channel_ids c' ↔ 1 ≤ i ≤ channel_max c').
Proof.
  split_and!; [reflexivity..|].
  intros H. specialize (H 10). cbn in H.
  assert (1 ≤ 10 ≤ 4) by (apply H; left). lia.
Qed.

(** ** The pool and the registry *)

Lemma init_pool_invariant (n hb : option Z) (c : Connection) :
  Connection_new n hb = Ok c → pool_invariant c.
Proof.
  intros Hnew. destruct (init_pool_is_range n hb c Hnew) as (_ & Hnd & Hrange).
  split; [done|]. intros reg i Hreg Hi. apply Hrange in Hi.
  unfold Connection_new, __init__ in Hnew.
  destruct (array_H_range_down _); [|done]. injection Hnew as <-.
  cbn in Hreg. injection Hreg as <-. apply lookup_singleton_ne. lia.
Qed.

(** Registering the id taken out of the pool keeps the invariant. *)
Lemma pool_invariant_take (c : Connection) (l1 l2 : list Z) (i : Z)
    (reg : gmap Z channel_obj) (ch : channel_obj) :
  pool_invariant c →
  _avail_channel_ids c = l1 ++ i :: l2 →
  channels c = Some reg →
  pool_invariant (set_channels (Some (<[i := ch]> reg))
                    (set__avail_channel_ids (l1 ++ l2) c)).
Proof.
  intros [Hnd Hdisj] Hpool Hreg. rewrite Hpool in Hnd.
  destruct (NoDup_remove_middle _ _ _ Hnd) as (Hnd' & Hout & Hkeep).
  destruct c. cbn in *. split; [done|].
  intros reg' j [= <-] Hj.
  rewrite lookup_insert_ne by (intros ->; done).
  apply (Hdisj reg j); [done|]. subst. by apply Hkeep; [intros ->|].
Qed.

Lemma channel_keeps_pool_invariant (channel_id : option Z) (w : World) :
  pool_invariant (self w) →
  pool_invariant (self (world_after (channel channel_id) w)).
Proof.
  intros Hinv. unfold world_after, channel. run.
  destruct (channels (self w)) as [reg|] eqn:Hreg; [|done].
  assert (Htake : ∀ l1 l2 i,
    _avail_channel_ids (self w) = l1 ++ i :: l2 →
    ∀ o, pool_invariant (set_channels (Some (<[i := ChChannel i o]> reg))
                          (set__avail_channel_ids (l1 ++ l2) (self w)))).
  { intros l1 l2 i Hpool o. by apply pool_invariant_take. }
  assert (Hopen : ∀ l1 l2 i,
    _avail_channel_ids (self w) = l1 ++ i :: l2 →
    pool_invariant
      (set_channels (Some (<[i := ChChannel i true]> (<[i := ChChannel i false]> reg)))
         (set_bytes_sent (bytes_sent (self w) + 1)
            (set__avail_channel_ids (l1 ++ l2) (self w))))).
  { intros l1 l2 i Hpool. rewrite insert_insert_eq.
    destruct (Htake l1 l2 i Hpool true) as [H1 H2].
    destruct w as [[] ? ? ? ? ? ? ?]. split; [exact H1|exact H2]. }
  destruct channel_id as [i|]; cbn [option_bind].
  - destruct (reg !! i) as [ch|] eqn:Hlook; [done|].
    unfold Channel_new, Channel_open, call_frame_writer, write_frame. run.
    rewrite claim_channel_id_run.
    destruct (array_remove i _) as [rest|] eqn:E; [|done].
    apply array_remove_Some in E as (l1 & l2 & Hpool & _ & ->).
    specialize (Htake l1 l2 i Hpool). specialize (Hopen l1 l2 i Hpool).
    destruct w as [[] ? ? ? ? ? ? ?]. cbn in *. subst.
    destruct _frame_writer0; [exact Hopen|exact (Htake false)].
  - unfold Channel_new, Channel_open, call_frame_writer, write_frame. run.
    rewrite get_free_channel_id_run.
    destruct (array_pop _) as [[i rest]|] eqn:E.
    + apply array_pop_Some in E.
      specialize (Htake rest [] i E). specialize (Hopen rest [] i E).
      rewrite app_nil_r in Htake, Hopen.
      destruct w as [[] ? ? ? ? ? ? ?]. cbn in *. subst.
      destruct _frame_writer0; [exact Hopen|exact (Htake false)].
    + by rewrite Hreg.
Qed.

(** The scenario of exhaustion: with a channel maximum of 1 and one channel
    open, a second [channel()] without id fails with the resource error and
    leaves registry and wire as they were. *)
Example channel_pool_exhausted :
  let w1 := world_after (channel None) (sample_world 1 0) in
  returns (channel None) (sample_world 1 0) (ChChannel 1 true)
  ∧ raises (channel None) w1
      (Exn ResourceError "No free channel ids, current=2, channel_max=1"
         (Some spec_Channel_Open) None)
  ∧ channels (self (world_after (channel None) w1)) = channels (self w1)
  ∧ wire (world_after (channel None) w1) = wire w1.
Proof. split_and!; vm_compute; reflexivity. Qed.

(** ** Start: negotiation of the capabilities *)

Lemma on_start_run (w : World) (vmaj vmin : Z) (sprops : gmap string value)
    (mechs locs : string) (scap : gmap string value) :
  _frame_writer (self w) = true →
  client_properties (self w) !! "capabilities" = None →
  capabilities_or_empty sprops = VTable scap →
  let new := filter (λ kv, truthy_get scap kv.1) (negotiate_capabilities (self w)) in
  let props' :=
    match map_to_list new with
    | [] => client_properties (self w)
    | _ :: _ => <["capabilities" := VTable new]> (client_properties (self w))
    end in
  returns (_on_start vmaj vmin sprops mechs locs) w tt
  ∧ wire (world_after (_on_start vmaj vmin sprops mechs locs) w)
    = wire w ++ [MethodFrame 0 (Connection_StartOk props' (login_method (self w))
                                  (login_response (self w)) (locale (self w)))]
  ∧ client_properties (self (world_after (_on_start vmaj vmin sprops mechs locs) w))
    = props'.
Proof.
  destruct_world w fw chb. intros Hfw Hnone Hscap. cbn in Hfw, Hnone. subst fw.
  unfold _on_start. rewrite Hscap. compute_world. rewrite Hnone. cbn [default].
  unfold wanted_capabilities. compute_world.
  rewrite (right_id_L ∅ (∪)), delete_id by done.
  done.
Qed.

(** C3, amended.  On an established connection whose client properties
    carry no capabilities of their own, and for server properties whose
    capabilities are a table (or missing, or falsy), [_on_start] replies
    StartOk with client properties in which, for every entry (wanted, enable)
    of the negotiation table, capabilities[wanted] = enable exactly when the
    server capabilities map wanted to a truthy value; every key of the
    capabilities sent is one the server maps to a truthy value; the key
    "capabilities" is absent exactly when no wanted capability is truthy on
    the server; the other client properties are as they were. *)
Theorem on_start_negotiates_capabilities (w : World) (vmaj vmin : Z)
    (sprops : gmap string value) (mechs locs : string) (scap : gmap string value) :
  _frame_writer (self w) = true →
  client_properties (self w) !! "capabilities" = None →
  capabilities_or_empty sprops = VTable scap →
  ∃ props,
    returns (_on_start vmaj vmin sprops mechs locs) w tt
    ∧ sent_client_properties (world_after (_on_start vmaj vmin sprops mechs locs) w)
      = Some props
    ∧ (∀ wanted enable,
         negotiate_capabilities (self w) !! wanted = Some enable →
         (∃ caps, capabilities_of props = Some caps ∧ caps !! wanted = Some enable)
         ↔ truthy_get scap wanted = true)
    ∧ (∀ caps k,
         capabilities_of props = Some caps → is_Some (caps !! k) →
         is_Some (negotiate_capabilities (self w) !! k) ∧ truthy_get scap k = true)
    ∧ (props !! "capabilities" = None
       ↔ ∀ wanted, is_Some (negotiate_capabilities (self w) !! wanted) →
                   truthy_get scap wanted = false)
    ∧ (∀ k, k ≠ "capabilities" → props !! k = client_properties (self w) !! k).
Proof.
  intros Hfw Hnone Hscap.
  destruct (on_start_run w vmaj vmin sprops mechs locs scap Hfw Hnone Hscap)
    as (Hret & Hwire & _).
  set (new := filter (λ kv, truthy_get scap kv.1) (negotiate_capabilities (self w))) in *.
  assert (Hnew : ∀ k v, new !! k = Some v
            ↔ negotiate_capabilities (self w) !! k = Some v ∧ truthy_get scap k = true).
  { intros k v. unfold new. rewrite map_lookup_filter_Some. cbn.
    by rewrite Is_true_true. }
  eexists. split; [exact Hret|]. split.
  { unfold sent_client_properties. rewrite Hwire, last_snoc. reflexivity. }
  destruct (map_to_list new) as [|kv l] eqn:E.
  - apply map_to_list_empty_iff in E. unfold capabilities_of. rewrite Hnone.
    split_and!.
    + intros k v Hk. split; [by intros (? & ? & ?)|]. intros Ht.
      assert (new !! k = Some v) as Hin by by apply Hnew.
      by rewrite E, lookup_empty in Hin.
    + done.
    + split; [|done]. intros _ k [v Hk].
      destruct (truthy_get scap k) eqn:Ht; [|done].
      assert (new !! k = Some v) as Hin by by apply Hnew.
      by rewrite E, lookup_empty in Hin.
    + done.
  - assert (Hne : new ≠ ∅).
    { intros Hem. apply map_to_list_empty_iff in Hem. by rewrite Hem in E. }
    unfold capabilities_of. rewrite lookup_insert_eq. split_and!.
    + intros k v Hk. split.
      * intros (caps & [= <-] & Hc). by apply Hnew in Hc as [_ ?].
      * intros Ht. exists new. split; [done|]. by apply Hnew.
    + intros caps k [= <-] [v Hv]. apply Hnew in Hv as [? ?]. by split.
    + split; [done|]. intros Hall. exfalso. apply Hne. apply map_empty. intros k.
      destruct (new !! k) as [v|] eqn:Hk; [|done].
      apply Hnew in Hk as [Hk Ht]. rewrite Hall in Ht; [done|by eexists].
    + intros k Hk. by rewrite lookup_insert_ne.
Qed.

Lemma on_start_negotiates_capabilities_witness :
  _frame_writer (self (sample_world 8 0)) = true
  ∧ client_properties (self (sample_world 8 0)) !! "capabilities" = None
  ∧ capabilities_or_empty (consumer_cancel_notify_only true)
    = VTable {[ "consumer_cancel_notify" := VBool true ]}
  ∧ ∃ props,
      sent_client_properties
        (world_after
           (_on_start 0 9 (consumer_cancel_notify_only true) "PLAIN" "en_US")
           (sample_world 8 0)) = Some props.
Proof.
  split_and!; [reflexivity..|].
  destruct (on_start_negotiates_capabilities (sample_world 8 0) 0 9
              (consumer_cancel_notify_only true) "PLAIN" "en_US"
              {[ "consumer_cancel_notify" := VBool true ]}
              eq_refl eq_refl eq_refl) as (props & _ & Hsent & _).
  exists props. exact Hsent.
Defined.

(** The example of the spec: the server advertises consumer_cancel_notify
    as true, and the client properties sent carry exactly that capability. *)
Example on_start_consumer_cancel_notify :
  sent_client_properties
    (world_after (_on_start 0 9 (consumer_cancel_notify_only true) "PLAIN" "en_US")
       (sample_world 8 0))
  = Some (<["capabilities" := VTable {[ "consumer_cancel_notify" := VBool true ]}]>
            (LIBRARY_PROPERTIES "0")).
Proof. reflexivity. Qed.

(** C3 as stated fails where the server lists a capability with a false
    value: consumer_cancel_notify is an entry of the default table and a key
    of the server capabilities, yet the client properties sent carry no
    capabilities at all. *)
Lemma on_start_listed_but_false_capability :
  let scap : gmap string value := {[ "consumer_cancel_notify" := VBool false ]} in
  let w' := world_after
              (_on_start 0 9 (consumer_cancel_notify_only false) "PLAIN" "en_US")
              (sample_world 8 0) in
  NEGOTIATE_CAPABILITIES !! "consumer_cancel_notify" = Some (VBool true)
  ∧ consumer_cancel_notify_only false !! "capabilities" = Some (VTable scap)
  ∧ is_Some (scap !! "consumer_cancel_notify")
  ∧ ∃ props, sent_client_properties w' = Some props
             ∧ props !! "capabilities" = None
             ∧ ¬ ((∃ caps, capabilities_of props = Some caps
                           ∧ caps !! "consumer_cancel_notify" = Some (VBool true))
                  ↔ is_Some (scap !! "consumer_cancel_notify")).
Proof.
  split_and!; [reflexivity..|by eexists|].
  exists (LIBRARY_PROPERTIES "0"). split_and!; [reflexivity..|].
  intros [_ H]. destruct H as (caps & Hcaps & _); [by eexists|].
  assert (Hnone : capabilities_of (LIBRARY_PROPERTIES "0") = None) by reflexivity.
  congruence.
Qed.

(** Capabilities the caller put into the client properties stay in the
    reply, whatever the server lists. *)
Example on_start_keeps_own_capabilities :
  let own : gmap string value := {[ "capabilities" := VTable {[ "x" := VBool true ]} ]} in
  let c := object_of (__init__ NEGOTIATE_CAPABILITIES (LIBRARY_PROPERTIES "0")
                        "AMQPLAIN" None "/" "en_US" (Some own) (Some 8) None
                        (Some 0) false false) in
  (sent_client_properties
     (world_after (_on_start 0 9 ∅ "PLAIN" "en_US") (established c (λ _, 0)))
     ≫= capabilities_of)
  = Some {[ "x" := VBool true ]}.
Proof. reflexivity. Qed.

(** ** Close from the broker *)

Lemma channel_collect_run ch w :
  returns (channel_collect ch) w tt
  ∧ without_registry (world_after (channel_collect ch) w) = without_registry w.
Proof. by destruct ch as [|i o]. Qed.

Lemma for_each_channel_collect_run l w :
  returns (for_each channel_collect l) w tt
  ∧ without_registry (world_after (for_each channel_collect l) w)
    = without_registry w.
Proof.
  revert w. induction l as [|ch l IH]; intros w; cbn [for_each]; [done|].
  destruct (channel_collect_run ch w) as [Hr Hs]. run.
  destruct (channel_collect ch w) as [r w1]. cbn in Hr, Hs. subst r.
  destruct (IH w1) as [Hr' Hs']. split; [done|]. by rewrite Hs'.
Qed.

(** [collect] on a connection with transport and registry: it returns, and
    transport, back reference and registry are gone; nothing else changes
    but the pool, to which the ids of the channels return unless closing the
    transport has failed. *)
Lemma collect_run w t reg :
  _transport (self w) = Some t →
  channels (self w) = Some reg →
  let w' := world_after collect w in
  returns collect w tt
  ∧ w' = set_self
           (set__transport None (set_connection None (set_channels None
              (set__avail_channel_ids (_avail_channel_ids (self w')) (self w)))))
           w.
Proof.
  intros Ht Hreg. unfold collect, try_finally, try_except, Transport_close. run.
  rewrite Ht. destruct (close_fails w) eqn:Hcf.
  { split; [done|]. destruct w as [[] ? ? ? ? ? ? ?]. cbn in Ht, Hreg. by subst. }
  run. rewrite Hreg.
  match goal with
  | |- context [for_each channel_collect ?l w] =>
      destruct (for_each_channel_collect_run l w) as [Hr Hs];
      unfold returns, world_after in Hr, Hs;
      destruct (for_each channel_collect l w) as [r w1]
  end.
  cbn in Hr, Hs. subst r. cbn. split; [done|].
  destruct w as [[] ? ? ? ? ? ? ?], w1 as [[] ? ? ? ? ? ? ?].
  cbv in Hs. inversion Hs; subst. reflexivity.
Qed.

(** C6.  On an established connection (frame writer, transport and
    registry in place, as when a frame has just been read), [_on_close]
    first writes CloseOk on channel 0, and then, in the world where CloseOk
    is on the wire, raises the error [error_for_code] makes from the
    arguments of Close: a connection error that carries the reply code, the
    reply text and the offending (class_id, method_id). *)
Theorem on_close_replies_then_raises (w : World) (code : Z) (text : string)
    (cls mth : Z) (t : Transport) (reg : gmap Z channel_obj) :
  _frame_writer (self w) = true →
  _transport (self w) = Some t →
  channels (self w) = Some reg →
  let e := error_for_code code text (cls, mth) ConnectionError in
  returns _x_close_ok w tt
  ∧ wire (world_after _x_close_ok w) = wire w ++ [MethodFrame 0 Connection_CloseOk]
  ∧ _on_close code text cls mth w = (Raised e, world_after _x_close_ok w)
  ∧ isinstance e connection_errors = true
  ∧ reply_code e = Some code ∧ reply_text e = text ∧ method_sig e = Some (cls, mth).
Proof.
  intros Hfw Ht Hreg e.
  set (w1 := set_wire (wire w ++ [MethodFrame 0 Connection_CloseOk])
               (set_self (set_bytes_sent (bytes_sent (self w) + 1) (self w)) w)).
  assert (Hx : _x_close_ok w = collect w1).
  { unfold _x_close_ok, _on_close_ok, send_method, call_frame_writer, write_frame.
    run. by rewrite Hfw. }
  destruct (collect_run w1 t reg) as [Hr Hw]; [by destruct w as [[] ? ? ? ? ? ? ?]..|].
  unfold returns, world_after in *. rewrite Hx.
  split_and!; try done.
  - by rewrite Hw.
  - unfold _on_close, error_for_code. run. rewrite Hx.
    destruct (collect w1) as [r w2]. cbn in Hr. by subst r.
Qed.

Lemma on_close_replies_then_raises_witness :
  _frame_writer (self (sample_world 3 0)) = true
  ∧ _transport (self (sample_world 3 0)) = Some {| connected := true |}
  ∧ channels (self (sample_world 3 0)) = Some {[ 0 := ChSelf ]}
  ∧ wire (world_after _x_close_ok (sample_world 3 0))
    = wire (sample_world 3 0) ++ [MethodFrame 0 Connection_CloseOk].
Proof.
  split_and!; [reflexivity..|].
  exact (proj1 (proj2 (on_close_replies_then_raises (sample_world 3 0)
                         320 "CONNECTION_FORCED" 0 0 _ _ eq_refl eq_refl eq_refl))).
Defined.

(** The broker closes with [Close(320, "CONNECTION_FORCED", 0, 0)]: CloseOk
    goes out, the connection is collected, and the error carries 320. *)
Example on_close_connection_forced :
  let r := _on_close 320 "CONNECTION_FORCED" 0 0 (sample_world 3 0) in
  r.1 = Raised (Exn ConnectionError "CONNECTION_FORCED" (Some (0, 0)) (Some 320))
  ∧ wire r.2 = [MethodFrame 0 Connection_CloseOk]
  ∧ channels (self r.2) = None
  ∧ _transport (self r.2) = None.
Proof. by split_and!. Qed.

(** ** The heartbeat monitor *)

(** C7.  On an established connection [heartbeat_tick] raises the forced
    close "Too many heartbeats missed" exactly when the negotiated heartbeat
    is not 0, the stamp [last_heartbeat_received] (as it stands after the
    sampling of this tick) is set, that is not 0, and the stamp plus two
    heartbeats is before the last reading of the clock, the one of the final
    test; it raises nothing else.  The stamp is the reading taken in this
    tick when the count of reads has changed since the last tick or there
    was no last tick, else the stamp of before.  With the heartbeat 0 (or
    not yet negotiated) the tick returns at once and leaves the world as it
    is: nothing is written, no attribute changes, the clock is not read. *)
Theorem heartbeat_tick_raises_iff (w : World) :
  _frame_writer (self w) = true →
  let w' := world_after heartbeat_tick w in
  let received := last_heartbeat_received (self w') in
  (raises heartbeat_tick w ConnectionForced_missed
   ↔ falsy (heartbeat (self w)) = false
     ∧ received ≠ 0
     ∧ received + 2 * default 0 (heartbeat (self w)) < clock w (pred (ticks w')))
  ∧ (∀ e, raises heartbeat_tick w e → e = ConnectionForced_missed)
  ∧ (falsy (heartbeat (self w)) = false →
     received =
       if changed (prev_recv (self w)) (bytes_recv (self w))
       then clock w (ticks w + (if changed (prev_sent (self w)) (bytes_sent (self w))
                                then 1 else 0))%nat
       else last_heartbeat_received (self w))
  ∧ (falsy (heartbeat (self w)) = true → heartbeat_tick w = (Ok tt, w)).
Proof.
  destruct_world w fw chb. cbn [self _frame_writer]. intros ->.
  destruct heartbeat0 as [hb|]; [destruct (Z.eqb_spec hb 0) as [->|Hhb]|].
  all: unfold heartbeat_tick, send_heartbeat; cases.
  all: rewrite ?Nat.add_0_r, ?Nat.add_1_r; cbv [pred default from_option id] in *.
  all: reflect_Z.
  all: split_and!; try done; try (intros; simplify_eq; fail).
  all: try (by intros e [= <-]).
  all: try (split; [done | intros (? & ? & ?); done || lia]).
  all: try (split; [intros _; split_and!; done || lia | done]).
Qed.

(** C10, amended.  On the first tick of an established connection with a
    heartbeat negotiated ([prev_sent] and [prev_recv] both [None]), both
    stamps are set to readings of the clock taken in this tick, whatever
    the counts of bytes and the old stamps are: [last_heartbeat_received]
    to the second reading, [last_heartbeat_sent] to the first, or to the
    reading after a heartbeat was written.  Whether "Too many heartbeats
    missed" is raised on that tick depends on the readings of this tick
    alone, not on the time since the connection was created: it is raised
    exactly when the second reading is not 0 and more than two heartbeats
    before the last reading, and so it is not raised as long as the clock
    does not advance by more than two heartbeats during the tick itself. *)
Theorem first_tick_stamps_both (w : World) (hb : Z) :
  _frame_writer (self w) = true →
  heartbeat (self w) = Some hb →
  hb ≠ 0 →
  prev_sent (self w) = None →
  prev_recv (self w) = None →
  let w' := world_after heartbeat_tick w in
  last_heartbeat_received (self w') = clock w (S (ticks w))
  ∧ (last_heartbeat_sent (self w') = clock w (ticks w)
     ∨ last_heartbeat_sent (self w') = clock w (ticks w + 3)%nat
       ∧ wire w' = wire w ++ [HeartbeatFrame])
  ∧ prev_sent (self w') = Some (bytes_sent (self w))
  ∧ prev_recv (self w') = Some (bytes_recv (self w))
  ∧ (raises heartbeat_tick w ConnectionForced_missed
     ↔ clock w (S (ticks w)) ≠ 0
       ∧ clock w (S (ticks w)) + 2 * hb < clock w (pred (ticks w')))
  ∧ (unstalled w (2 * hb) → returns heartbeat_tick w tt).
Proof.
  destruct_world w fw chb. cbn [self _frame_writer heartbeat prev_sent prev_recv].
  intros -> -> Hhb -> ->. unfold unstalled.
  unfold heartbeat_tick, send_heartbeat. cases.
  all: rewrite ?Nat.add_0_r, ?Nat.add_1_r;
    cbv [pred default from_option id falsy changed] in *.
  all: reflect_Z; try done.
  all: split_and!; try done; auto.
  all: try (split; [done | intros (? & ?); done || lia]).
  all: try (split; [intros _; split_and!; done || lia | done]).
  all: try (right; split; [f_equal; lia | done]).
  all: intros Hclock.
  all: pose proof (Hclock (ticks0 + 2)%nat ltac:(lia)) as H2.
  all: pose proof (Hclock (ticks0 + 3)%nat ltac:(lia)) as H3.
  all: pose proof (Hclock (ticks0 + 4)%nat ltac:(lia)) as H4.
  all: replace (ticks0 + 2)%nat with (S (S ticks0)) in * by lia.
  all: replace (ticks0 + 3)%nat with (S (S (S ticks0))) in * by lia.
  all: replace (ticks0 + 4)%nat with (S (S (S (S ticks0)))) in * by lia.
  all: lia.
Qed.

Lemma first_tick_stamps_both_witness :
  _frame_writer (self (tuned_world 2 2 (λ _, 10))) = true
  ∧ heartbeat (self (tuned_world 2 2 (λ _, 10))) = Some 2
  ∧ 2 ≠ 0
  ∧ prev_sent (self (tuned_world 2 2 (λ _, 10))) = None
  ∧ prev_recv (self (tuned_world 2 2 (λ _, 10))) = None
  ∧ unstalled (tuned_world 2 2 (λ _, 10)) (2 * 2)
  ∧ returns heartbeat_tick (tuned_world 2 2 (λ _, 10)) tt.
Proof.
  assert (H : unstalled (tuned_world 2 2 (λ _, 10)) (2 * 2)).
  { intros k _. change (10 ≤ 10 + 2 * 2). lia. }
  split_and!; [reflexivity|reflexivity|lia|reflexivity|reflexivity|exact H|].
  destruct (first_tick_stamps_both (tuned_world 2 2 (λ _, 10)) 2
              eq_refl eq_refl ltac:(lia) eq_refl eq_refl)
    as (_ & _ & _ & _ & _ & Hret).
  exact (Hret H).
Defined.

(** C10 as stated fails when the clock advances by more than two heartbeats
    inside the first tick: with a heartbeat of 1 and the readings 10, 10,
    10, 13 the stamp of the receive side is 10 and the final test reads 13. *)
Lemma first_tick_raises_when_stalled :
  let clk := λ k : nat, if (k <? 3)%nat then 10 else 13 in
  let w := tuned_world 1 1 clk in
  heartbeat (self w) = Some 1
  ∧ prev_sent (self w) = None
  ∧ prev_recv (self w) = None
  ∧ (∀ j k : nat, (j ≤ k)%nat → clk j ≤ clk k)
  ∧ raises heartbeat_tick w ConnectionForced_missed
  ∧ last_heartbeat_received (self (world_after heartbeat_tick w)) = 10.
Proof.
  split_and!; try reflexivity.
  intros j k Hjk. destruct (Nat.ltb_spec j 3), (Nat.ltb_spec k 3); lia.
Qed.

Lemma heartbeat_tick_raises_iff_witness :
  _frame_writer (self (tuned_world 2 2 (λ _, 10))) = true
  ∧ (raises heartbeat_tick (tuned_world 2 2 (λ _, 10)) ConnectionForced_missed
     ↔ falsy (heartbeat (self (tuned_world 2 2 (λ _, 10)))) = false
       ∧ last_heartbeat_received
           (self (world_after heartbeat_tick (tuned_world 2 2 (λ _, 10)))) ≠ 0
       ∧ last_heartbeat_received
           (self (world_after heartbeat_tick (tuned_world 2 2 (λ _, 10))))
         + 2 * default 0 (heartbeat (self (tuned_world 2 2 (λ _, 10))))
         < clock (tuned_world 2 2 (λ _, 10))
             (pred (ticks (world_after heartbeat_tick (tuned_world 2 2 (λ _, 10)))))).
Proof.
  split; [reflexivity|].
  exact (proj1 (heartbeat_tick_raises_iff (tuned_world 2 2 (λ _, 10)) eq_refl)).
Defined.

(** The scenario of missed heartbeats: the heartbeat is 2, a tick runs every
    second from second 1 on, and nothing is received.  The first tick stamps
    both sides at second 1; the ticks of the seconds 2 to 5 return, the
    fourth writing a heartbeat; the tick of second 6, five seconds after the
    stamp, raises. *)
Example heartbeat_missed_scenario :
  let readings := [1; 1; 1; 1; 2; 2; 3; 3; 4; 4; 4; 5; 5; 5; 6; 6] in
  let w := tuned_world 2 2 (λ k, nth k readings 0) in
  returns (tick_times 5) w tt
  ∧ wire (world_after (tick_times 5) w) = wire w ++ [HeartbeatFrame]
  ∧ raises (tick_times 6) w ConnectionForced_missed
  ∧ ticks (world_after (tick_times 6) w) = 16%nat.
Proof. split_and!; vm_compute; reflexivity. Qed.

(** ** Channels *)

Lemma collect_tears_down (w : World) :
  channels (self (world_after collect w)) = None
  ∧ _transport (self (world_after collect w)) = None
  ∧ connection (self (world_after collect w)) = None.
Proof.
  unfold collect, try_finally, world_after.
  match goal with |- context [try_except ?b ?c ?h w] =>
    destruct (try_except b c h w) as [r w1] end.
  by run.
Qed.

(** C9.  [channel(id)] returns the channel registered under [id] and
    leaves the world as it is, so nothing is written for it; when the
    registry is [None] it raises the recoverable connection error
    "Connection already closed." for every argument, and the registry is
    [None] after [collect], whatever [collect] itself did. *)
Theorem channel_existing_or_closed (w : World) :
  (∀ reg i ch, channels (self w) = Some reg → reg !! i = Some ch →
     channel (Some i) w = (Ok ch, w))
  ∧ (channels (self w) = None →
     ∀ channel_id,
       channel channel_id w
         = (Raised (Exn RecoverableConnectionError "Connection already closed."
                      None None), w))
  ∧ (∀ channel_id e,
       raises (channel channel_id) (world_after collect w) e →
       e = Exn RecoverableConnectionError "Connection already closed." None None
       ∧ isinstance e recoverable_connection_errors = true)
  ∧ (∀ channel_id, ∃ e, raises (channel channel_id) (world_after collect w) e).
Proof.
  split_and!.
  - intros reg i ch Hreg Hch. unfold channel. run. rewrite Hreg. cbn. by rewrite Hch.
  - intros Hnone cid. unfold channel. run. by rewrite Hnone.
  - intros cid e. destruct (collect_tears_down w) as (Hnone & _).
    unfold channel. run. rewrite Hnone. by intros [= <-].
  - intros cid. destruct (collect_tears_down w) as (Hnone & _).
    unfold channel. run. rewrite Hnone. by eexists.
Qed.

(** ** The handshake loop keeps the link *)

Lemma on_start_link vmaj vmin props mechs locs w :
  link_state (_on_start vmaj vmin props mechs locs w).2 = link_state w.
Proof.
  destruct_world w fw chb. unfold _on_start, wanted_capabilities, link_state.
  cases; reflexivity.
Qed.

Lemma on_tune_link cm fm s w :
  link_state (_on_tune cm fm s w).2 = link_state w.
Proof.
  destruct_world w fw chb. unfold _on_tune, _on_tune_sent, link_state.
  cases; reflexivity.
Qed.

Lemma link_alive_state w w' :
  link_state w' = link_state w → link_alive w → link_alive w'.
Proof.
  unfold link_state, link_alive, is_connected. intros [= -> -> _]. done.
Qed.

Lemma collect_link w t reg :
  _transport (self w) = Some t →
  channels (self w) = Some reg →
  inbound (world_after collect w) = inbound w
  ∧ _handshake_complete (self (world_after collect w)) = _handshake_complete (self w)
  ∧ _transport (self (world_after collect w)) = None.
Proof.
  intros Ht Hreg. destruct (collect_run w t reg Ht Hreg) as [_ ->].
  by destruct w as [[] ? ? ? ? ? ? ?].
Qed.

(** The dispatch table is unfolded before the handlers it names. *)
Strategy expand [dispatch_method].

(** A method dispatched on the connection that returns: the frames to come
    are untouched and the link stays alive. *)
Lemma dispatch_method_link m w w' :
  _handshake_complete (self w) = false →
  is_connected (self w) = true →
  is_Some (channels (self w)) →
  dispatch_method m w = (Ok tt, w') →
  inbound w' = inbound w ∧ link_alive w'.
Proof.
  intros Hhc Hconn [reg Hreg] Hrun.
  assert (Hsame : link_state w' = link_state w → inbound w' = inbound w ∧ link_alive w').
  { intros Hl. split; [by injection Hl|].
    apply (link_alive_state w); [done|by left]. }
  destruct m; cbn [dispatch_method] in Hrun.
  - pose proof (on_start_link version_major0 version_minor0
      server_properties0 mechanisms0 locales0 w) as Hl.
    rewrite Hrun in Hl. exact (Hsame Hl).
  - unfold _on_open_ok, call in Hrun. run. injection Hrun as <-.
    split; [done|]. by left.
  - unfold _on_secure in Hrun. run. simplify_eq. split; [done|by left].
  - pose proof (on_tune_link channel_max0 frame_max0 server_heartbeat0 w) as Hl.
    rewrite Hrun in Hl. exact (Hsame Hl).
  - unfold _on_close in Hrun. run. by destruct (_x_close_ok w) as [[] ?].
  - unfold _on_blocked, call in Hrun. run.
    destruct (on_blocked (self w)); simplify_eq; (split; [done|by left]).
  - unfold _on_unblocked, call in Hrun. run.
    destruct (on_unblocked (self w)); simplify_eq; (split; [done|by left]).
  - unfold _on_close_ok in Hrun.
    destruct (_transport (self w)) as [t|] eqn:Ht;
      [|by unfold is_connected in Hconn; rewrite Ht in Hconn].
    destruct (collect_link w t reg Ht Hreg) as (Hin & Hhc' & Htr).
    unfold world_after in Hin, Hhc', Htr. rewrite Hrun in Hin, Hhc', Htr.
    cbn [snd] in Hin, Hhc', Htr.
    split; [done|]. right. split; [done|]. by rewrite Hhc'.
  - run. simplify_eq. split; [done|by left].
Qed.

(** One turn of the loop that returns has taken one frame and left the link
    alive. *)
Lemma drain_events_link w w' :
  _handshake_complete (self w) = false →
  link_alive w →
  drain_events w = (Ok tt, w') →
  inbound w' = tail (inbound w) ∧ link_alive w'.
Proof.
  intros Hhc Halive. unfold drain_events, blocking_read, read_frame. run.
  destruct (_transport (self w)) as [t|] eqn:Ht; [|done].
  destruct Halive as [Hconn|[Hnone _]]; [|congruence].
  destruct (inbound w) as [|f rest] eqn:Hin; [done|]. cbn [tail]. run.
  destruct (_on_inbound_frame (self w)) eqn:Hh; [|done].
  set (w1 := set_self (set_bytes_recv (bytes_recv (self w) + 1) (self w))
               (set_inbound rest w)).
  assert (Ht1 : _transport (self w1) = Some t)
    by (destruct w as [[] ? ? ? ? ? ? ?]; exact Ht).
  assert (Hhc1 : _handshake_complete (self w1) = false)
    by (destruct w as [[] ? ? ? ? ? ? ?]; exact Hhc).
  assert (Hconn1 : is_connected (self w1) = true)
    by (unfold is_connected in *; rewrite Ht1; by rewrite Ht in Hconn).
  assert (Hin1 : inbound w1 = rest) by done.
  unfold handle_frame, on_inbound_method. run. fold w1.
  destruct f as [cid m|].
  - destruct (channels (self w1)) as [reg|] eqn:Hreg; [|done].
    destruct (reg !! cid) as [[|i o]|]; [| |done].
    + intros Hrun.
      destruct (dispatch_method_link m w1 w' Hhc1 Hconn1 ltac:(by eexists) Hrun)
        as [Hin' Hal]. split; [congruence|done].
    + intros [= <-]. split; [done|by left].
  - intros [= <-]. split; [done|by left].
Qed.

Lemma handshake_loop_connected frames w w' :
  inbound w = frames →
  link_alive w →
  handshake_loop frames w = (Ok tt, w') →
  is_connected (self w') = true.
Proof.
  revert w. induction frames as [|f rest IH]; intros w Hin Halive; cbn [handshake_loop].
  - destruct (_handshake_complete (self w)) eqn:Hhc.
    + intros [= <-]. by destruct Halive as [?|[_ ?]]; [|congruence].
    + unfold drain_events, blocking_read, read_frame. run.
      destruct (_transport (self w)); [|done]. by rewrite Hin.
  - destruct (_handshake_complete (self w)) eqn:Hhc.
    + intros [= <-]. by destruct Halive as [?|[_ ?]]; [|congruence].
    + run. destruct (drain_events w) as [[[]|e] w1] eqn:Hd; [|done].
      destruct (drain_events_link w w1 Hhc Halive Hd) as [Hin1 Hal1].
      apply IH; [by rewrite Hin1, Hin|done].
Qed.

(** A [connect] that returns leaves a connected instance, on which a second
    [connect] does nothing. *)
Lemma connect_then_connected w w' callback :
  connect callback w = (Ok tt, w') →
  callback = None ∨ is_connected (self w) = false →
  is_connected (self w') = true.
Proof.
  unfold connect. destruct (is_connected (self w)) eqn:Hc.
  - intros Hrun [->|?]; [|done]. by injection Hrun as <-.
  - intros Hrun _. unfold Transport_connect in Hrun. run.
    destruct (reachable w); [|done].
    eapply handshake_loop_connected; [| |exact Hrun]; [done|by left].
Qed.

(** ** Connecting twice *)

Lemma connect_when_connected (w : World) (callback : option (M unit)) :
  is_connected (self w) = true →
  connect callback w
    = match callback with
      | Some k => k w
      | None => (Ok tt, w)
      end.
Proof. intros H. unfold connect. by rewrite H. Qed.

(** C8.  [connect] on a connected instance does nothing of its own: it is
    the call of the completion callback when one is given, and with none it
    returns at once in the very same world, so no transport is opened, no
    frame is read or written, and every attribute of the connection is as
    before.  And a [connect] that has returned, after a handshake or on a
    connected instance, leaves a connected instance: a second [connect]
    returns in the world the first one left. *)
Theorem connect_is_idempotent (w : World) (callback : option (M unit)) :
  (is_connected (self w) = true →
   connect callback w
     = match callback with
       | Some k => k w
       | None => (Ok tt, w)
       end)
  ∧ (∀ w1, connect callback w = (Ok tt, w1) →
           callback = None ∨ is_connected (self w) = false →
           is_connected (self w1) = true ∧ connect None w1 = (Ok tt, w1)).
Proof.
  split.
  - apply connect_when_connected.
  - intros w1 Hrun Hfirst.
    assert (Hc : is_connected (self w1) = true)
      by exact (connect_then_connected w w1 callback Hrun Hfirst).
    split; [exact Hc|]. exact (connect_when_connected w1 None Hc).
Qed.

Lemma connect_is_idempotent_witness :
  is_connected (self (sample_world 3 0)) = true
  ∧ connect None (sample_world 3 0) = (Ok tt, sample_world 3 0).
Proof.
  split; [reflexivity|].
  exact (proj1 (connect_is_idempotent (sample_world 3 0) None) eq_refl).
Defined.

(** The handshake of the scenario: Start, Tune(0, 0, 0) and OpenOk from the
    broker; the client answers StartOk, TuneOk with its own limits and the
    heartbeat 0, and Open, and [connect] returns with the handshake
    complete.  A second [connect] changes nothing. *)
Example connect_full_handshake :
  let frames := [InMethod 0 (Connection_Start 0 9 ∅ "PLAIN" "en_US");
                 InMethod 0 (Connection_Tune 0 0 0);
                 InMethod 0 Connection_OpenOk] in
  let w := world_of (object_of (Connection_new (Some 3) (Some 0))) frames (λ _, 0) true in
  let w1 := world_after (connect None) w in
  returns (connect None) w tt
  ∧ wire w1 = [MethodFrame 0 (Connection_StartOk (LIBRARY_PROPERTIES "0")
                                "AMQPLAIN" None "en_US");
               MethodFrame 0 (Connection_TuneOk 3 131072 0);
               MethodFrame 0 (Connection_Open "/" "" false)]
  ∧ _handshake_complete (self w1) = true
  ∧ is_connected (self w1) = true
  ∧ inbound w1 = []
  ∧ connect None w1 = (Ok tt, w1).
Proof.
  split_and!; [reflexivity..|].
  by apply (connect_when_connected _ None).
Qed.

(** * Further properties of the code *)

(** ** The constructor *)



(** ** The order and the uniqueness of the ids *)

Lemma allocate_many_run (k : nat) : ∀ (w : World) (a m : Z),
  _avail_channel_ids (self w) = reverse (seqZ a m) →
  Z.of_nat k ≤ m →
  allocate_many k w =
    (Ok (seqZ a (Z.of_nat k)),
     set_self (set__avail_channel_ids
                 (reverse (seqZ (a + Z.of_nat k) (m - Z.of_nat k))) (self w)) w).
Proof.
  induction k as [|k IH]; intros w a m Hpool Hk.
  - cbn [allocate_many]. run. rewrite Z.add_0_r, Z.sub_0_r, <- Hpool.
    by destruct w as [[] ? ? ? ? ? ? ?].
  - cbn [allocate_many]. rewrite Nat2Z.inj_succ in *.
    pose proof (get_free_channel_id_run w) as Hrun.
    rewrite Hpool, (seqZ_cons a m), reverse_cons in Hrun by lia.
    rewrite (proj2 (array_pop_Some _ a _) eq_refl) in Hrun.
    run. rewrite Hrun.
    rewrite (IH _ (Z.succ a) (Z.pred m)) by (done || lia).
    rewrite (seqZ_cons a (Z.succ (Z.of_nat k))), Z.pred_succ by lia.
    replace (Z.succ a + Z.of_nat k) with (a + Z.succ (Z.of_nat k)) by lia.
    replace (Z.pred m - Z.of_nat k) with (m - Z.succ (Z.of_nat k)) by lia.
    by destruct w as [[] ? ? ? ? ? ? ?].
Qed.

(** X2.  A fresh connection hands out its ids in ascending order: [k]
    allocations in a row, [k] up to the channel maximum, return 1, 2, ...,
    [k] and leave the ids above [k] in the pool; once all [channel_max] ids
    are out, the next allocation raises the resource error "No free channel
    ids", which counts the connection itself as the one registered
    channel. *)
Theorem fresh_pool_allocates_ascending (cm hb : option Z) (c : Connection)
    (w : World) (k : nat) :
  Connection_new cm hb = Ok c →
  self w = c →
  Z.of_nat k ≤ channel_max c →
  returns (allocate_many k) w (seqZ 1 (Z.of_nat k))
  ∧ _avail_channel_ids (self (world_after (allocate_many k) w))
    = reverse (seqZ (1 + Z.of_nat k) (channel_max c - Z.of_nat k))
  ∧ (Z.of_nat k = channel_max c →
     raises _get_free_channel_id (world_after (allocate_many k) w)
       (Exn ResourceError
          ("No free channel ids, current=1, channel_max=" +:+ pretty (channel_max c))
          (Some spec_Channel_Open) None)).
Proof.
  intros Hnew Hself Hk.
  assert (Hpool : _avail_channel_ids (self w) = reverse (seqZ 1 (channel_max c))
                  ∧ channels c = Some {[ 0 := ChSelf ]}).
  { rewrite Hself. unfold Connection_new, __init__ in Hnew.
    unfold array_H_range_down in Hnew.
    destruct (_ <? _) in Hnew; [done|]. by injection Hnew as <-. }
  destruct Hpool as [Hpool Hreg].
  unfold returns, world_after, raises.
  rewrite (allocate_many_run k w 1 (channel_max c) Hpool Hk). cbn [fst snd].
  split_and!; [done|by destruct w as [[] ? ? ? ? ? ? ?]|].
  intros Hfull. rewrite get_free_channel_id_run.
  replace (_avail_channel_ids _) with (@nil Z).
  2:{ destruct w as [[] ? ? ? ? ? ? ?]; cbn. rewrite seqZ_nil; [done|lia]. }
  cbn [array_pop reverse rev_append].
  replace (channels _) with (Some ({[ 0 := ChSelf ]} : gmap Z channel_obj)).
  2:{ rewrite <- Hreg, <- Hself. by destruct w as [[] ? ? ? ? ? ? ?]. }
  replace (channel_max (self _)) with (channel_max c).
  2:{ rewrite <- Hself. by destruct w as [[] ? ? ? ? ? ? ?]. }
  cbn [fst]. rewrite map_size_singleton. reflexivity.
Qed.

Lemma fresh_pool_allocates_ascending_witness :
  let w := world_of (object_of (Connection_new (Some 5) (Some 0))) [] (λ _, 0) true in
  returns (allocate_many 3) w [1; 2; 3]
  ∧ _avail_channel_ids (self (world_after (allocate_many 3) w)) = [5; 4].
Proof.
  intros w.
  destruct (fresh_pool_allocates_ascending (Some 5) (Some 0)
              (object_of (Connection_new (Some 5) (Some 0))) w 3)
    as (H1 & H2 & _); [reflexivity | reflexivity | vm_compute; congruence |].
  split; [exact H1 | exact H2].
Defined.

Lemma pool_op_run_takes (op : pool_op) (w w' : World) (i : Z) :
  pool_op_run op w = (Ok i, w') →
  ∃ l1 l2, _avail_channel_ids (self w) = l1 ++ i :: l2
           ∧ w' = set_self (set__avail_channel_ids (l1 ++ l2) (self w)) w.
Proof.
  destruct op as [|j]; cbn [pool_op_run].
  - rewrite get_free_channel_id_run.
    destruct (array_pop _) as [[x r]|] eqn:E.
    + apply array_pop_Some in E. intros [= -> <-].
      exists r, []. by rewrite app_nil_r.
    + by destruct (channels (self w)).
  - run. rewrite claim_channel_id_run.
    destruct (array_remove j _) as [r|] eqn:E; [|done].
    apply array_remove_Some in E as (l1 & l2 & H1 & _ & ->).
    intros [= <- <-]. by exists l1, l2.
Qed.

Lemma pool_op_run_fails (op : pool_op) (w w' : World) (e : exn) :
  pool_op_run op w = (Raised e, w') → w' = w.
Proof.
  destruct op as [|j]; cbn [pool_op_run].
  - rewrite get_free_channel_id_run.
    destruct (array_pop _) as [[x r]|]; [done|].
    destruct (channels (self w)); by intros [= _ <-].
  - run. rewrite claim_channel_id_run.
    destruct (array_remove j _); [done|]. by intros [= _ <-].
Qed.

(** X3.  Whatever sequence of allocations and claims a caller makes, and
    whichever of them fail, the ids it has obtained together with the ids
    left in the pool are the ids the pool started with, each as often as it
    was there: no id is lost and none is made up.  On a pool without
    duplicates, as the constructor builds it, no id is therefore handed out
    twice, and an id handed out is no longer in the pool.  Nothing but the
    pool changes: the registry, every other attribute of the connection,
    the wire and the frames to come are as before. *)
Theorem pool_ops_hand_out_each_id_once (ops : list pool_op) (w : World) :
  let ids := (pool_ops_run ops w).1 in
  let w' := (pool_ops_run ops w).2 in
  ids ++ _avail_channel_ids (self w') ≡ₚ _avail_channel_ids (self w)
  ∧ (NoDup (_avail_channel_ids (self w)) →
     NoDup ids ∧ (∀ i, i ∈ ids → i ∉ _avail_channel_ids (self w')))
  ∧ without_pool w' = without_pool w
  ∧ channels (self w') = channels (self w).
Proof.
  cbn zeta.
  assert (H : (pool_ops_run ops w).1 ++ _avail_channel_ids (self (pool_ops_run ops w).2)
              ≡ₚ _avail_channel_ids (self w)
              ∧ without_pool (pool_ops_run ops w).2 = without_pool w).
  { revert w. induction ops as [|op ops IH]; intros w; cbn [pool_ops_run]; [done|].
    destruct (pool_op_run op w) as [[i|e] w1] eqn:E.
    - apply pool_op_run_takes in E as (l1 & l2 & Hw & ->).
      destruct (IH (set_self (set__avail_channel_ids (l1 ++ l2) (self w)) w)) as [Hp Hr].
      destruct (pool_ops_run ops _) as [ids w2]. cbn [fst snd] in *.
      split.
      + cbn [app]. rewrite Hp. destruct w as [[] ? ? ? ? ? ? ?]; cbn in Hw |- *.
        rewrite Hw. apply Permutation_middle.
      + rewrite Hr. by destruct w as [[] ? ? ? ? ? ? ?].
    - apply pool_op_run_fails in E as ->. apply IH. }
  destruct H as [Hp Hr]. split_and!; [done| |done|].
  - intros Hnd. rewrite <- Hp in Hnd. apply NoDup_app in Hnd as (H1 & H2 & _).
    done.
  - apply (f_equal (λ v, channels (self v))) in Hr.
    by destruct (pool_ops_run ops w).2 as [[] ? ? ? ? ? ? ?], w as [[] ? ? ? ? ? ? ?].
Qed.

Lemma pool_ops_hand_out_each_id_once_witness :
  let w := world_of (object_of (Connection_new (Some 5) (Some 0))) [] (λ _, 0) true in
  let ops := [Allocate; Claim 4; Claim 1; Claim 4; Allocate; Claim 9] in
  (pool_ops_run ops w).1 = [1; 4; 2]
  ∧ NoDup (pool_ops_run ops w).1.
Proof.
  intros w ops. split; [vm_compute; reflexivity|].
  refine (proj1 (proj1 (proj2 (pool_ops_hand_out_each_id_once ops w)) _)).
  apply (bool_decide_unpack _). vm_compute. exact I.
Defined.

(** X4.  An id that has been claimed is gone: on a pool without
    duplicates, a second claim of the same id raises the connection error
    "Channel <id> already open" and changes nothing, and no later
    allocation returns that id. *)
Theorem claimed_id_is_gone (w : World) (i : Z) :
  NoDup (_avail_channel_ids (self w)) →
  returns (_claim_channel_id i) w tt →
  let w1 := world_after (_claim_channel_id i) w in
  raises (_claim_channel_id i) w1
    (Exn ConnectionError ("Channel " +:+ pretty i +:+ " already open") None None)
  ∧ world_after (_claim_channel_id i) w1 = w1
  ∧ (∀ j, returns _get_free_channel_id w1 j → j ≠ i ∧ j ∈ _avail_channel_ids (self w)).
Proof.
  intros Hnd. unfold returns, raises, world_after.
  rewrite claim_channel_id_run.
  destruct (array_remove i _) as [r|] eqn:E; [|done]. intros _. cbn [snd].
  apply array_remove_Some in E as (l1 & l2 & Hw & _ & ->).
  rewrite Hw in Hnd. apply NoDup_remove_middle in Hnd as (Hnd & Hi & Hsub).
  set (w1 := set_self _ w).
  assert (Hp1 : _avail_channel_ids (self w1) = l1 ++ l2)
    by (by destruct w as [[] ? ? ? ? ? ? ?]).
  rewrite claim_channel_id_run, get_free_channel_id_run, Hp1.
  rewrite (proj2 (array_remove_None i (l1 ++ l2)) Hi).
  split_and!; [done..|].
  intros j. destruct (array_pop (l1 ++ l2)) as [[x r]|] eqn:E.
  - apply array_pop_Some in E. intros [= <-].
    assert (Hx : x ∈ l1 ++ l2)
      by (rewrite E, elem_of_app, elem_of_cons; right; by left).
    assert (x ≠ i) by (by intros ->).
    split; [done|]. rewrite Hw. by apply Hsub.
  - by destruct (channels (self w1)).
Qed.

Lemma claimed_id_is_gone_witness :
  let w := world_of (object_of (Connection_new (Some 5) (Some 0))) [] (λ _, 0) true in
  raises (_claim_channel_id 3) (world_after (_claim_channel_id 3) w)
    (Exn ConnectionError ("Channel " +:+ pretty 3 +:+ " already open") None None).
Proof.
  intros w.
  refine (proj1 (claimed_id_is_gone w 3 _ _)); [|reflexivity].
  apply (bool_decide_unpack _). vm_compute. exact I.
Defined.

(** ** Teardown *)

(** [collect] where it does not get to the channels: without a transport,
    when closing the transport fails, and without a registry. *)
Lemma collect_short (w : World) :
  let torn := set_self (set__transport None (set_connection None
                          (set_channels None (self w)))) w in
  (_transport (self w) = None → collect w = (Raised (builtin AttributeError), torn))
  ∧ (is_Some (_transport (self w)) → close_fails w = true → collect w = (Ok tt, torn))
  ∧ (is_Some (_transport (self w)) → close_fails w = false →
     channels (self w) = None → collect w = (Raised (builtin AttributeError), torn)).
Proof.
  cbn zeta. unfold collect, try_finally, try_except, Transport_close. run.
  split_and!.
  - by intros ->.
  - intros [t ->] ->. done.
  - intros [t ->] -> ->. done.
Qed.

(** [collect] touches nothing but the transport, the back reference, the
    registry and the pool, whether it returns or raises. *)
Lemma collect_keeps (w : World) :
  without_link (world_after collect w) = without_link w.
Proof.
  destruct (collect_short w) as (Hnone & Hfail & Hreg0). unfold world_after.
  destruct (_transport (self w)) as [t|] eqn:Ht.
  - destruct (close_fails w) eqn:Hcf.
    + rewrite Hfail by (done || by eexists). by destruct w as [[] ? ? ? ? ? ? ?].
    + destruct (channels (self w)) as [reg|] eqn:Hreg.
      * destruct (collect_run w t reg Ht Hreg) as [_ Hw]. unfold world_after in Hw.
        rewrite Hw. by destruct w as [[] ? ? ? ? ? ? ?].
      * rewrite Hreg0 by (done || by eexists). by destruct w as [[] ? ? ? ? ? ? ?].
  - rewrite Hnone by done. by destruct w as [[] ? ? ? ? ? ? ?].
Qed.

Lemma without_link_fields (w1 w2 : World) :
  without_link w1 = without_link w2 →
  wire w1 = wire w2 ∧ inbound w1 = inbound w2 ∧ called w1 = called w2
  ∧ reachable w1 = reachable w2
  ∧ _handshake_complete (self w1) = _handshake_complete (self w2).
Proof.
  destruct w1 as [[] ? ? ? ? ? ? ?], w2 as [[] ? ? ? ? ? ? ?].
  intros H. cbv in H. inversion H; subst. by split_and!.
Qed.

(** X5.  [collect] always leaves the transport, the back reference and the
    registry [None], and changes nothing else but the pool: nothing is
    written or read, and the flag of the handshake, the frame writer and the
    negotiated values stay.  A [socket.error] of closing the transport is
    swallowed: [collect] then returns, and the channels are not collected,
    so the pool stays as it was.  It returns exactly when there is a
    transport and either closing it fails in this way or there is a
    registry; otherwise, without a transport, or without a registry after
    the transport has closed, it raises [AttributeError], which its [except
    socket.error] does not catch, and it raises nothing else.  So it is not
    idempotent: a second [collect] always raises [AttributeError]. *)
Theorem collect_always_tears_down (w : World) :
  let w' := world_after collect w in
  _transport (self w') = None
  ∧ connection (self w') = None
  ∧ channels (self w') = None
  ∧ without_link w' = without_link w
  ∧ (returns collect w tt
     ↔ is_Some (_transport (self w))
       ∧ (close_fails w = true ∨ is_Some (channels (self w))))
  ∧ (raises collect w (builtin AttributeError)
     ↔ _transport (self w) = None
       ∨ (close_fails w = false ∧ channels (self w) = None))
  ∧ (∀ e, raises collect w e → e = builtin AttributeError)
  ∧ (is_Some (_transport (self w)) → close_fails w = true →
     returns collect w tt
     ∧ _avail_channel_ids (self w') = _avail_channel_ids (self w))
  ∧ raises collect w' (builtin AttributeError).
Proof.
  cbn zeta.
  destruct (collect_tears_down w) as (Hch & Ht' & Hco).
  destruct (collect_short w) as (Hnone & Hfail & Hreg0).
  assert (Hsecond : raises collect (world_after collect w) (builtin AttributeError)).
  { unfold raises. by rewrite (proj1 (collect_short (world_after collect w)) Ht'). }
  split_and!; [done | done | done | apply collect_keeps | | | | | done].
  all: unfold returns, raises, world_after.
  all: destruct (_transport (self w)) as [t|] eqn:Ht;
         [destruct (close_fails w) eqn:Hcf;
            [|destruct (channels (self w)) as [reg|] eqn:Hreg]|].
  all: try (rewrite Hfail by (done || by eexists)).
  all: try (rewrite Hreg0 by (done || by eexists)).
  all: try (rewrite Hnone by done).
  all: try (destruct (collect_run w t reg Ht Hreg) as [Hret _];
            unfold returns in Hret; rewrite Hret).
  all: cbn [fst snd].
  (* returns *)
  - split; [intros _; split; [by eexists | by left] | done].
  - split; [intros _; split; [by eexists | right; by eexists] | done].
  - split; [done | intros [_ [?|[? ?]]]; done].
  - split; [done | intros [[? ?] _]; done].
  (* raises AttributeError *)
  - split; [done | intros [?|[? ?]]; done].
  - split; [done | intros [?|[? ?]]; done].
  - split; [intros _; by right | done].
  - split; [intros _; by left | done].
  (* nothing else is raised *)
  - done.
  - done.
  - by intros e [= <-].
  - by intros e [= <-].
  (* closing fails *)
  - intros _ _. split; [done|]. by destruct w as [[] ? ? ? ? ? ? ?].
  - intros _ ?. done.
  - intros _ ?. done.
  - intros [? ?]. done.
Qed.

Lemma collect_always_tears_down_witness :
  let w := set_self (set_channels None (self (sample_world 3 0))) (sample_world 3 0) in
  let w2 := set_close_fails true w in
  raises collect w (builtin AttributeError)
  ∧ returns collect w2 tt
  ∧ raises collect (world_after collect (sample_world 3 0)) (builtin AttributeError).
Proof.
  intros w w2.
  destruct (collect_always_tears_down w) as (_ & _ & _ & _ & _ & Hraises & _).
  destruct (collect_always_tears_down w2) as (_ & _ & _ & _ & _ & _ & _ & Hfails & _).
  destruct (collect_always_tears_down (sample_world 3 0))
    as (_ & _ & _ & _ & _ & _ & _ & _ & Hsecond).
  split_and!.
  - apply Hraises. right. split; reflexivity.
  - apply Hfails; [by eexists | reflexivity].
  - exact Hsecond.
Defined.

(** ** Tune: the limits and the reply *)

(** X6.  [_on_tune] takes each limit of the broker unless it is 0, in which
    case the limit the connection had stays.  With a frame writer it then
    writes TuneOk with the limits and the heartbeat it has just set,
    followed by Open for the virtual host, and nothing else; without one
    the limits are set all the same, nothing is written, and calling the
    missing writer raises [TypeError]. *)
Theorem on_tune_negotiates_limits (w : World) (cm fm s : Z) :
  let w' := world_after (_on_tune cm fm s) w in
  channel_max (self w') = (if cm =? 0 then channel_max (self w) else cm)
  ∧ frame_max (self w') = (if fm =? 0 then frame_max (self w) else fm)
  ∧ (if _frame_writer (self w)
     then returns (_on_tune cm fm s) w tt
          ∧ wire w' = wire w ++
              [MethodFrame 0 (Connection_TuneOk (channel_max (self w'))
                                (frame_max (self w')) (default 0 (heartbeat (self w'))));
               MethodFrame 0 (Connection_Open (virtual_host (self w)) "" false)]
     else raises (_on_tune cm fm s) w (builtin TypeError)
          ∧ wire w' = wire w).
Proof.
  cbn zeta.
  destruct (on_tune_attributes w cm fm s) as (Hcm & Hfm & _).
  split_and!; [done..|].
  destruct (_frame_writer (self w)) eqn:Hfw.
  - by apply on_tune_replies.
  - clear Hcm Hfm. destruct_world w fw chb. compute_world. subst fw.
    unfold _on_tune. compute_world.
    by destruct (_ || _); destruct (falsy chb).
Qed.

(** ** Start: capabilities of the caller, and lists of the broker *)

Lemma wanted_lookup (scap table : gmap string value) (k : string) :
  filter (λ kv, truthy_get scap kv.1) table !! k
  = if truthy_get scap k then table !! k else None.
Proof.
  destruct (truthy_get scap k) eqn:Hk.
  - destruct (table !! k) as [v|] eqn:Ht.
    + apply map_lookup_filter_Some. split; [done | cbn; by rewrite Hk].
    + apply map_lookup_filter_None. left. done.
  - apply map_lookup_filter_None. right. intros v _. cbn. rewrite Hk. exact id.
Qed.

Lemma on_start_run_own (w : World) (vmaj vmin : Z) (sprops : gmap string value)
    (mechs locs : string) (scap own : gmap string value) :
  _frame_writer (self w) = true →
  client_properties (self w) !! "capabilities" = Some (VTable own) →
  capabilities_or_empty sprops = VTable scap →
  let caps := filter (λ kv, truthy_get scap kv.1) (negotiate_capabilities (self w)) ∪ own in
  let props' :=
    match map_to_list caps with
    | [] => delete "capabilities" (client_properties (self w))
    | _ :: _ => <["capabilities" := VTable caps]> (client_properties (self w))
    end in
  returns (_on_start vmaj vmin sprops mechs locs) w tt
  ∧ wire (world_after (_on_start vmaj vmin sprops mechs locs) w)
    = wire w ++ [MethodFrame 0 (Connection_StartOk props' (login_method (self w))
                                  (login_response (self w)) (locale (self w)))]
  ∧ client_properties (self (world_after (_on_start vmaj vmin sprops mechs locs) w))
    = props'.
Proof.
  destruct_world w fw chb. intros Hfw Hown Hscap. compute_world. subst fw.
  unfold _on_start. rewrite Hscap. compute_world. rewrite Hown. cbn [default].
  unfold wanted_capabilities. compute_world.
  rewrite (insert_id _ _ _ Hown).
  done.
Qed.

(** X7.  When the caller has put a capability table of its own into the
    client properties, [_on_start] merges the negotiated capabilities into
    it: in the StartOk it sends, a capability has the value of the
    negotiation table when the table wants it and the broker maps it to a
    truthy value, and else the value the caller gave it, if any.  The key
    "capabilities" is dropped exactly when the table of the caller is empty
    and nothing is negotiated; the other client properties go out
    unchanged, and the connection keeps what was sent. *)
Theorem on_start_merges_own_capabilities (w : World) (vmaj vmin : Z)
    (sprops : gmap string value) (mechs locs : string)
    (scap own : gmap string value) :
  _frame_writer (self w) = true →
  client_properties (self w) !! "capabilities" = Some (VTable own) →
  capabilities_or_empty sprops = VTable scap →
  let w' := world_after (_on_start vmaj vmin sprops mechs locs) w in
  ∃ props,
    returns (_on_start vmaj vmin sprops mechs locs) w tt
    ∧ sent_client_properties w' = Some props
    ∧ client_properties (self w') = props
    ∧ (∀ k, k ≠ "capabilities" → props !! k = client_properties (self w) !! k)
    ∧ (∀ k v,
         (∃ caps, capabilities_of props = Some caps ∧ caps !! k = Some v)
         ↔ (if truthy_get scap k
            then from_option Some (own !! k) (negotiate_capabilities (self w) !! k)
            else own !! k) = Some v)
    ∧ (props !! "capabilities" = None
       ↔ own = ∅
         ∧ ∀ k, is_Some (negotiate_capabilities (self w) !! k) →
                truthy_get scap k = false).
Proof.
  intros Hfw Hown Hscap. cbn zeta.
  destruct (on_start_run_own w vmaj vmin sprops mechs locs scap own Hfw Hown Hscap)
    as (Hr & Hwire & Hprops).
  set (table := negotiate_capabilities (self w)) in *.
  set (caps := filter (λ kv, truthy_get scap kv.1) table ∪ own) in *.
  assert (Hlook : ∀ k, caps !! k
            = if truthy_get scap k then from_option Some (own !! k) (table !! k)
              else own !! k).
  { intros k. unfold caps. rewrite lookup_union, wanted_lookup.
    destruct (truthy_get scap k); [|by rewrite (left_id_L None _)].
    destruct (table !! k); cbn; [by destruct (own !! k) | by destruct (own !! k)]. }
  eexists. split; [exact Hr|]. split.
  { unfold sent_client_properties. rewrite Hwire, last_snoc. reflexivity. }
  split; [exact Hprops|].
  destruct (map_to_list caps) as [|kv l] eqn:Hl.
  - apply map_to_list_empty_iff in Hl.
    split_and!.
    + intros k Hk. by rewrite lookup_delete_ne.
    + intros k v. unfold capabilities_of. rewrite lookup_delete_eq.
      rewrite <- Hlook, Hl, lookup_empty. split; [by intros (? & ? & ?) | done].
    + rewrite lookup_delete_eq. split; [intros _ | done].
      split.
      * apply map_eq. intros k. rewrite lookup_empty.
        pose proof (Hlook k) as Hk. rewrite Hl, lookup_empty in Hk.
        destruct (truthy_get scap k); [|done].
        destruct (table !! k); cbn in Hk; [done|done].
      * intros k [v Hv]. pose proof (Hlook k) as Hk.
        rewrite Hl, lookup_empty, Hv in Hk.
        destruct (truthy_get scap k); [done|done].
  - split_and!.
    + intros k Hk. by rewrite lookup_insert_ne.
    + intros k v. unfold capabilities_of. rewrite lookup_insert_eq, <- Hlook.
      split; [by intros (? & [= <-] & ?) | intros ?; by eexists].
    + rewrite lookup_insert_eq. split; [done|]. intros [-> Hall].
      assert (caps = ∅) as Hc; [|by rewrite Hc, map_to_list_empty in Hl].
      apply map_eq. intros k. rewrite Hlook, !lookup_empty.
      destruct (truthy_get scap k) eqn:Hk; [|done].
      destruct (table !! k) eqn:Ht; [|done].
      rewrite Hall in Hk; [done | by eexists].
Qed.

Lemma on_start_merges_own_capabilities_witness :
  let w := set_self (set_client_properties
                       {[ "capabilities" := VTable {[ "basic.nack" := VBool true ]} ]}
                       (self (sample_world 3 0))) (sample_world 3 0) in
  ∃ props,
    sent_client_properties
      (world_after (_on_start 0 9 (consumer_cancel_notify_only true) "PLAIN" "en_US") w)
      = Some props
    ∧ props !! "capabilities" ≠ None.
Proof.
  intros w.
  destruct (on_start_merges_own_capabilities w 0 9 (consumer_cancel_notify_only true)
              "PLAIN" "en_US" {[ "consumer_cancel_notify" := VBool true ]}
              {[ "basic.nack" := VBool true ]} eq_refl eq_refl eq_refl)
    as (props & _ & Hs & _ & _ & _ & Hnone).
  exists props. split; [exact Hs|].
  intros H. apply Hnone in H as [H _].
  apply (f_equal (λ m : gmap string value, m !! "basic.nack")) in H.
  vm_compute in H. discriminate H.
Defined.

(** X8.  When the broker's "capabilities" entry is truthy and yet no table
    (a string, a number, [True]) and there is a capability to negotiate,
    [_on_start] raises [AttributeError] at [scap.get] and sends no StartOk.
    What it has done before stays done: the version and the server
    properties are recorded, and the client properties of the connection now
    carry the empty "capabilities" table that [setdefault] has put there,
    the key the code wants to keep away from the broker. *)
Theorem on_start_bad_server_capabilities (w : World) (vmaj vmin : Z)
    (sprops : gmap string value) (mechs locs : string) (v : value) :
  sprops !! "capabilities" = Some v →
  truthy v = true →
  (∀ t, v ≠ VTable t) →
  negotiate_capabilities (self w) ≠ ∅ →
  client_properties (self w) !! "capabilities" = None →
  let w' := world_after (_on_start vmaj vmin sprops mechs locs) w in
  raises (_on_start vmaj vmin sprops mechs locs) w (builtin AttributeError)
  ∧ wire w' = wire w
  ∧ client_properties (self w')
    = <["capabilities" := VTable ∅]> (client_properties (self w))
  ∧ server_properties (self w') = sprops
  ∧ version_major (self w') = vmaj ∧ version_minor (self w') = vmin.
Proof.
  intros Hv Htr Hnt Hneg Hnone.
  assert (Hscap : capabilities_or_empty sprops = v).
  { unfold capabilities_or_empty. by rewrite Hv, Htr. }
  assert (Hw : wanted_capabilities v (negotiate_capabilities (self w))
               = Raised (builtin AttributeError)).
  { unfold wanted_capabilities.
    destruct (map_to_list (negotiate_capabilities (self w))) eqn:E.
    - by apply map_to_list_empty_iff in E.
    - destruct v as [| | | |t]; try done. by destruct (Hnt t). }
  destruct_world w fw chb. compute_world.
  unfold _on_start. rewrite Hscap. compute_world. rewrite Hnone. cbn [default].
  rewrite Hw. done.
Qed.

Lemma on_start_bad_server_capabilities_witness :
  let sprops : gmap string value := {[ "capabilities" := VStr "publisher_confirms" ]} in
  let w' := world_after (_on_start 0 9 sprops "PLAIN" "en_US") (sample_world 3 0) in
  raises (_on_start 0 9 sprops "PLAIN" "en_US") (sample_world 3 0) (builtin AttributeError)
  ∧ wire w' = wire (sample_world 3 0).
Proof.
  intros sprops w'.
  destruct (on_start_bad_server_capabilities (sample_world 3 0) 0 9 sprops "PLAIN" "en_US"
              (VStr "publisher_confirms")) as (H1 & H2 & _).
  - reflexivity.
  - reflexivity.
  - intros t H. discriminate H.
  - intros H. apply (f_equal (λ m : gmap string value, m !! "connection.blocked")) in H.
    vm_compute in H. discriminate H.
  - reflexivity.
  - split; [exact H1 | exact H2].
Defined.

Lemma split_on_nonempty sep s : split_on sep s ≠ [].
Proof.
  destruct s as [|c s]; cbn; [done|].
  destruct (Ascii.eqb c sep); [done|]. by destruct (split_on sep s).
Qed.

Lemma join_split (s : string) : join_with " " (split_on " "%char s) = s.
Proof.
  induction s as [|c s IH]; [done|]. cbn [split_on].
  destruct (Ascii.eqb_spec c " "%char) as [->|Hc].
  - pose proof (split_on_nonempty " "%char s) as Hne.
    destruct (split_on " "%char s) as [|x xs]; [done|].
    change (join_with " " ("" :: x :: xs))
      with (String " "%char (join_with " " (x :: xs))).
    by rewrite IH.
  - pose proof (split_on_nonempty " "%char s) as Hne.
    destruct (split_on " "%char s) as [|x xs]; [done|].
    rewrite <- IH. by destruct xs.
Qed.

Lemma split_fields_no_sep (s : string) :
  Forall (λ x, contains " "%char x = false) (split_on " "%char s).
Proof.
  induction s as [|c s IH]; cbn [split_on].
  - by repeat constructor.
  - destruct (Ascii.eqb_spec c " "%char) as [->|Hc].
    + by constructor.
    + pose proof (split_on_nonempty " "%char s) as Hne.
      destruct (split_on " "%char s) as [|x xs]; [done|].
      inversion IH as [|? ? Hx Hxs]; subst. constructor; [|done].
      cbn. rewrite Hx. by destruct (Ascii.eqb_spec c " "%char).
Qed.

Lemma on_start_records (w : World) (vmaj vmin : Z) (sprops : gmap string value)
    (mechs locs : string) :
  let c' := self (world_after (_on_start vmaj vmin sprops mechs locs) w) in
  mechanisms c' = split_on " "%char mechs
  ∧ locales c' = split_on " "%char locs
  ∧ server_properties c' = sprops
  ∧ version_major c' = vmaj ∧ version_minor c' = vmin.
Proof.
  destruct_world w fw chb. unfold _on_start. compute_world.
  destruct (default _ _); try done.
  destruct (wanted_capabilities _ _); [|done].
  compute_world. by destruct fw.
Qed.

(** X9.  Whatever else [_on_start] does, and whether or not it can reply,
    it records the lists of the broker so that nothing is lost: the
    mechanisms and the locales are each a list, never empty, of fields
    without a space, which joined by single spaces give back the string the
    broker sent; and the property [server_capabilities] then is the table
    the broker announced, or the empty table when it announced none or a
    falsy one. *)
Theorem on_start_splits_server_lists (w : World) (vmaj vmin : Z)
    (sprops : gmap string value) (mechs locs : string) :
  let c' := self (world_after (_on_start vmaj vmin sprops mechs locs) w) in
  join_with " " (mechanisms c') = mechs
  ∧ join_with " " (locales c') = locs
  ∧ Forall (λ x, contains " "%char x = false) (mechanisms c')
  ∧ Forall (λ x, contains " "%char x = false) (locales c')
  ∧ mechanisms c' ≠ [] ∧ locales c' ≠ []
  ∧ server_capabilities c' = capabilities_or_empty sprops.
Proof.
  cbn zeta.
  destruct (on_start_records w vmaj vmin sprops mechs locs) as (-> & -> & Hs & _).
  unfold server_capabilities. rewrite Hs.
  split_and!; auto using join_split, split_fields_no_sep, split_on_nonempty.
Qed.

(** ** The heartbeat monitor: sending, and traffic as a sign of life *)

(** X10.  A tick on an established connection with a heartbeat negotiated
    records the counts of bytes it has sampled, and writes at most one
    frame: a heartbeat frame, exactly when the reading [now] is more than
    one heartbeat after [last_heartbeat_sent], which is the first reading
    of this tick when bytes were sent since the last tick (or there was
    none) and the old stamp otherwise.  After the write the count of bytes
    sent is one up and [last_heartbeat_sent] is the next reading of the
    clock; without a write both stay. *)
Theorem heartbeat_tick_sends_when_due (w : World) (hb : Z) :
  _frame_writer (self w) = true →
  heartbeat (self w) = Some hb →
  hb ≠ 0 →
  let w' := world_after heartbeat_tick w in
  let cs := changed (prev_sent (self w)) (bytes_sent (self w)) in
  let cr := changed (prev_recv (self w)) (bytes_recv (self w)) in
  let k := (ticks w + (if cs then 1 else 0) + (if cr then 1 else 0))%nat in
  let stamp := if cs then clock w (ticks w) else last_heartbeat_sent (self w) in
  prev_sent (self w') = Some (bytes_sent (self w))
  ∧ prev_recv (self w') = Some (bytes_recv (self w))
  ∧ (if stamp + hb <? clock w k
     then wire w' = wire w ++ [HeartbeatFrame]
          ∧ bytes_sent (self w') = bytes_sent (self w) + 1
          ∧ last_heartbeat_sent (self w') = clock w (S k)
     else wire w' = wire w
          ∧ bytes_sent (self w') = bytes_sent (self w)
          ∧ last_heartbeat_sent (self w') = stamp).
Proof.
  intros Hfw Hh Hhb. apply Z.eqb_neq in Hhb.
  destruct_world w fw chb. compute_world. subst.
  unfold heartbeat_tick, send_heartbeat, falsy. compute_world. rewrite Hhb.
  cbv [default from_option id].
  repeat match goal with
         | |- context [changed ?a ?b] => destruct (changed a b)
         end.
  all: compute_world; rewrite ?Nat.add_0_r, ?Nat.add_1_r.
  all: destruct (_ + hb <? _); compute_world.
  all: repeat (match goal with
               | |- context [if ?c then _ else _] => destruct c
               end; compute_world).
  all: by split_and!.
Qed.

Lemma heartbeat_tick_sends_when_due_witness :
  let w := tuned_world 10 10 (λ k, 100 + 20 * Z.of_nat k) in
  wire (world_after heartbeat_tick w) = wire w ++ [HeartbeatFrame].
Proof.
  intros w.
  assert (Hhb : 10 ≠ 0) by discriminate.
  destruct (heartbeat_tick_sends_when_due w 10 eq_refl eq_refl Hhb) as (_ & _ & H).
  exact (proj1 H).
Defined.

(** X11.  Traffic counts as a heartbeat: a tick that finds the count of
    bytes received changed since the last tick (or that is the first tick)
    stamps [last_heartbeat_received] with a reading of this tick and does
    not raise, however old the stamp was, as long as the clock does not
    advance by more than two heartbeats while the tick runs. *)
Theorem heartbeat_tick_traffic_is_heartbeat (w : World) (hb : Z) :
  _frame_writer (self w) = true →
  heartbeat (self w) = Some hb →
  hb ≠ 0 →
  changed (prev_recv (self w)) (bytes_recv (self w)) = true →
  steady w (2 * hb) →
  returns heartbeat_tick w tt
  ∧ last_heartbeat_received (self (world_after heartbeat_tick w))
    = clock w (ticks w + (if changed (prev_sent (self w)) (bytes_sent (self w))
                          then 1 else 0))%nat.
Proof.
  intros Hfw Hh Hhb Hcr Hst. apply Z.eqb_neq in Hhb.
  destruct_world w fw chb. unfold steady in Hst. compute_world. subst.
  unfold heartbeat_tick, send_heartbeat, falsy. compute_world. rewrite Hhb.
  cbv [default from_option id].
  match goal with
  | |- context [changed ?a ?b] => destruct (changed a b)
  end.
  all: compute_world; rewrite Hcr; compute_world.
  all: rewrite ?Nat.add_0_r, ?Nat.add_1_r.
  all: repeat (match goal with
               | |- context [if ?c then _ else _] => destruct c eqn:?
               end; compute_world).
  all: split; try done.
  all: reflect_Z.
  all: exfalso.
  all: match goal with
       | H : ?clk ?j + _ < ?clk ?k |- _ =>
           pose proof (Hst j k ltac:(lia) ltac:(lia) ltac:(lia)); lia
       end.
Qed.

Lemma heartbeat_tick_traffic_is_heartbeat_witness :
  let w := tuned_world 10 10 (λ k, 100 + Z.of_nat k) in
  returns heartbeat_tick w tt.
Proof.
  intros w.
  refine (proj1 (heartbeat_tick_traffic_is_heartbeat w 10 eq_refl eq_refl _ eq_refl _)).
  - discriminate.
  - unfold steady. change (ticks w) with 0%nat.
    change (clock w) with (λ k : nat, 100 + Z.of_nat k). cbn beta. lia.
Defined.

(** ** The handshake of connect *)

(** One turn of the loop on a method frame for channel 0: the frame is taken
    and counted, and its method dispatched on the connection. *)
Lemma drain_events_run (w : World) (t : Transport) (m : in_method)
    (rest : list in_frame) (reg : gmap Z channel_obj) :
  _transport (self w) = Some t →
  _on_inbound_frame (self w) = true →
  channels (self w) = Some reg →
  reg !! 0 = Some ChSelf →
  inbound w = InMethod 0 m :: rest →
  drain_events w = dispatch_method m (frame_taken rest w).
Proof.
  intros Ht Hh Hreg H0 Hin.
  unfold drain_events, blocking_read, read_frame, handle_frame, on_inbound_method.
  run. rewrite Ht, Hin. run. rewrite Hh.
  destruct w as [[] ? ? ? ? ? ? ?]. compute_world. subst. by rewrite H0.
Qed.

(** What [connect] does before the loop. *)
Lemma connect_run (w : World) (callback : option (M unit)) :
  is_connected (self w) = false →
  connect callback w =
    if reachable w then handshake_loop (inbound w) (linked w)
    else (Raised (builtin socket_error),
          set_self (set__transport (Some {| connected := false |}) (self w)) w).
Proof.
  intros Hc. unfold connect, Transport_connect, linked. rewrite Hc. run.
  destruct (reachable w) eqn:Hr; [|done].
  by destruct w as [[] ? ? ? ? ? ? ?].
Qed.

Lemma on_start_world (w : World) (vmaj vmin : Z) (sprops : gmap string value)
    (mechs locs : string) (scap : gmap string value) :
  _frame_writer (self w) = true →
  client_properties (self w) !! "capabilities" = None →
  capabilities_or_empty sprops = VTable scap →
  let new := filter (λ kv, truthy_get scap kv.1) (negotiate_capabilities (self w)) in
  let props' :=
    match map_to_list new with
    | [] => client_properties (self w)
    | _ :: _ => <["capabilities" := VTable new]> (client_properties (self w))
    end in
  _on_start vmaj vmin sprops mechs locs w =
    (Ok tt,
     set_wire (wire w ++ [MethodFrame 0 (Connection_StartOk props' (login_method (self w))
                                          (login_response (self w)) (locale (self w)))])
       (set_self
          (set_bytes_sent (bytes_sent (self w) + 1)
             (set_client_properties props'
                (set_locales (split_on " "%char locs)
                   (set_mechanisms (split_on " "%char mechs)
                      (set_server_properties sprops
                         (set_version_minor vmin
                            (set_version_major vmaj (self w)))))))) w)).
Proof.
  destruct_world w fw chb. intros Hfw Hnone Hscap. compute_world. subst fw.
  unfold _on_start. rewrite Hscap. compute_world. rewrite Hnone. cbn [default].
  unfold wanted_capabilities. compute_world.
  rewrite (right_id_L ∅ (∪)), delete_id by done.
  by destruct (map_to_list _).
Qed.

Lemma on_tune_world (w : World) (cm fm s : Z) :
  _frame_writer (self w) = true →
  let hb := if falsy (client_heartbeat (self w)) then 0
            else if s =? 0 then py_max s (opt_or_else (client_heartbeat (self w)) 0)
            else py_min s (opt_or_else (client_heartbeat (self w)) 0) in
  let cm' := or_else cm (channel_max (self w)) in
  let fm' := or_else fm (frame_max (self w)) in
  _on_tune cm fm s w =
    (Ok tt,
     set_wire (wire w ++ [MethodFrame 0 (Connection_TuneOk cm' fm' hb);
                          MethodFrame 0 (Connection_Open (virtual_host (self w)) "" false)])
       (set_self
          (set_bytes_sent (bytes_sent (self w) + 1 + 1)
             (set_heartbeat (Some hb)
                (set_server_heartbeat (Some s)
                   (set_frame_max fm' (set_channel_max cm' (self w)))))) w)).
Proof.
  destruct_world w fw chb. intros Hfw. compute_world. subst fw.
  unfold _on_tune, _on_tune_sent. compute_world.
  replace (or_else s 0) with s by (unfold or_else; case_match; lia).
  destruct chb as [c|]; cbn [falsy opt_or_else]; unfold or_else.
  - destruct (c =? 0) eqn:Hc; cbn; destruct (s =? 0) eqn:Hs; cbn;
      rewrite ?Hc, <- ?app_assoc; reflexivity.
  - cbn. destruct (s =? 0); cbn; rewrite <- ?app_assoc; reflexivity.
Qed.

(** X12.  The handshake.  On an instance that is not connected, with the
    broker in reach and sending Start, Tune and OpenOk on channel 0,
    [connect] returns after it has written exactly StartOk (with the
    negotiated client properties), TuneOk (with the limits and the
    heartbeat it has set) and Open for the virtual host, in this order; it
    has taken these three frames and none of those behind them, fulfilled
    [on_open] once, and left the connection connected with the handshake
    complete, the registry as it was and the pool untouched.  The
    [callback] argument plays no part on this path: it is not called. *)
Theorem connect_handshake (w : World) (callback : option (M unit))
    (vmaj vmin : Z) (sprops : gmap string value) (mechs locs : string)
    (scap : gmap string value) (cm fm s : Z) (reg : gmap Z channel_obj)
    (rest : list in_frame) :
  is_connected (self w) = false →
  reachable w = true →
  _handshake_complete (self w) = false →
  channels (self w) = Some reg →
  reg !! 0 = Some ChSelf →
  client_properties (self w) !! "capabilities" = None →
  capabilities_or_empty sprops = VTable scap →
  inbound w = InMethod 0 (Connection_Start vmaj vmin sprops mechs locs)
              :: InMethod 0 (Connection_Tune cm fm s)
              :: InMethod 0 Connection_OpenOk :: rest →
  let w' := world_after (connect callback) w in
  let new := filter (λ kv, truthy_get scap kv.1) (negotiate_capabilities (self w)) in
  let props' :=
    match map_to_list new with
    | [] => client_properties (self w)
    | _ :: _ => <["capabilities" := VTable new]> (client_properties (self w))
    end in
  returns (connect callback) w tt
  ∧ wire w' = wire w ++
      [MethodFrame 0 (Connection_StartOk props' (login_method (self w))
                        (login_response (self w)) (locale (self w)));
       MethodFrame 0 (Connection_TuneOk (channel_max (self w')) (frame_max (self w'))
                        (default 0 (heartbeat (self w'))));
       MethodFrame 0 (Connection_Open (virtual_host (self w)) "" false)]
  ∧ inbound w' = rest
  ∧ called w' = called w ++ ["on_open"]
  ∧ _handshake_complete (self w') = true
  ∧ is_connected (self w') = true
  ∧ channel_max (self w') = or_else cm (channel_max (self w))
  ∧ frame_max (self w') = or_else fm (frame_max (self w))
  ∧ client_properties (self w') = props'
  ∧ channels (self w') = Some reg
  ∧ _avail_channel_ids (self w') = _avail_channel_ids (self w).
Proof.
  intros Hc Hr Hhc Hreg H0 Hcaps Hscap Hin. cbn zeta.
  unfold returns, world_after.
  rewrite (connect_run w callback Hc), Hr. clear Hc Hr.
  unfold linked. destruct_world w fw chb. compute_world. subst.
  (* Start *)
  cbn [handshake_loop]. compute_world.
  erewrite (drain_events_run _ _ _ _ reg); [|reflexivity || done..].
  cbn [dispatch_method]. unfold frame_taken. compute_world.
  erewrite (on_start_world _ vmaj vmin sprops mechs locs scap); [|reflexivity || done..].
  compute_world.
  (* Tune *)
  erewrite (drain_events_run _ _ _ _ reg); [|reflexivity || done..].
  cbn [dispatch_method]. unfold frame_taken. compute_world.
  rewrite on_tune_world by reflexivity. compute_world.
  (* OpenOk *)
  erewrite (drain_events_run _ _ _ _ reg); [|reflexivity || done..].
  cbn [dispatch_method]. unfold frame_taken, _on_open_ok. compute_world.
  match goal with
  | |- context [handshake_loop rest ?v] =>
      replace (handshake_loop rest v) with (@Ok unit tt, v) by (by destruct rest)
  end.
  compute_world. unfold is_connected. compute_world.
  rewrite <- !app_assoc. by split_and!.
Qed.

Lemma connect_handshake_witness :
  let frames := [InMethod 0 (Connection_Start 0 9 ∅ "PLAIN" "en_US");
                 InMethod 0 (Connection_Tune 0 0 0);
                 InMethod 0 Connection_OpenOk;
                 InHeartbeat] in
  let w := world_of (object_of (Connection_new (Some 3) (Some 0))) frames (λ _, 0) true in
  returns (connect None) w tt
  ∧ inbound (world_after (connect None) w) = [InHeartbeat].
Proof.
  intros frames w.
  destruct (connect_handshake w None 0 9 ∅ "PLAIN" "en_US" ∅ 0 0 0 {[ 0 := ChSelf ]}
              [InHeartbeat]) as (H1 & _ & H3 & _); [reflexivity..|].
  split; [exact H1 | exact H3].
Defined.

(** ** Failures of connect *)

(** X13.  When the broker cannot be reached, [connect] raises the socket
    error of the transport and leaves nothing behind but a transport that is
    not connected, so the instance still counts as not connected.  When the
    broker is reached and then sends nothing, [connect] raises the timeout
    of the read with the transport connected, the frame handler and the
    frame writer installed and the handshake not complete; as [connected]
    looks at the transport only, a second [connect] then returns at once
    and never finishes the handshake. *)
Theorem connect_failure_leaves_half_open (w : World) (callback : option (M unit)) :
  is_connected (self w) = false →
  let w' := world_after (connect callback) w in
  (reachable w = false →
   raises (connect callback) w (builtin socket_error)
   ∧ w' = set_self (set__transport (Some {| connected := false |}) (self w)) w
   ∧ is_connected (self w') = false)
  ∧ (reachable w = true →
     _handshake_complete (self w) = false →
     inbound w = [] →
     raises (connect callback) w (builtin socket_timeout)
     ∧ w' = linked w
     ∧ is_connected (self w') = true
     ∧ _handshake_complete (self w') = false
     ∧ connect None w' = (Ok tt, w')).
Proof.
  intros Hc. cbn zeta. unfold raises, world_after.
  rewrite (connect_run w callback Hc). split.
  - intros ->. cbn [fst snd]. split_and!; [done..|].
    by destruct w as [[] ? ? ? ? ? ? ?].
  - intros -> Hhc Hin. rewrite Hin. cbn [handshake_loop].
    replace (_handshake_complete (self (linked w))) with false
      by (by destruct w as [[] ? ? ? ? ? ? ?]).
    assert (Hd : drain_events (linked w) = (Raised (builtin socket_timeout), linked w)).
    { unfold drain_events, blocking_read, read_frame. run.
      replace (_transport (self (linked w))) with (Some {| connected := true |})
        by (by destruct w as [[] ? ? ? ? ? ? ?]).
      replace (inbound (linked w)) with (@nil in_frame)
        by (by destruct w as [[] ? ? ? ? ? ? ?]).
      done. }
    rewrite Hd. cbn [fst snd].
    by split_and!.
Qed.

Lemma connect_failure_leaves_half_open_witness :
  let w := world_of (object_of (Connection_new (Some 3) (Some 0))) [] (λ _, 0) true in
  raises (connect None) w (builtin socket_timeout)
  ∧ connect None (world_after (connect None) w) = (Ok tt, world_after (connect None) w).
Proof.
  intros w.
  destruct (proj2 (connect_failure_leaves_half_open w None eq_refl) eq_refl eq_refl eq_refl)
    as (H1 & _ & _ & _ & H5).
  split; [exact H1 | exact H5].
Defined.

(** X14.  A Close of the broker in the handshake aborts [connect]: CloseOk
    is written, the connection is collected (no transport, no registry, no
    back reference), the frames behind Close are left unread, [on_open] is
    not fulfilled, and [connect] raises the connection error made from the
    arguments of Close.  A [channel] call afterwards raises "Connection
    already closed.". *)
Theorem connect_closed_by_broker (w : World) (callback : option (M unit))
    (code : Z) (text : string) (cls mth : Z) (reg : gmap Z channel_obj)
    (rest : list in_frame) :
  is_connected (self w) = false →
  reachable w = true →
  _handshake_complete (self w) = false →
  channels (self w) = Some reg →
  reg !! 0 = Some ChSelf →
  inbound w = InMethod 0 (Connection_Close code text cls mth) :: rest →
  let w' := world_after (connect callback) w in
  raises (connect callback) w (error_for_code code text (cls, mth) ConnectionError)
  ∧ wire w' = wire w ++ [MethodFrame 0 Connection_CloseOk]
  ∧ inbound w' = rest
  ∧ called w' = called w
  ∧ _transport (self w') = None
  ∧ channels (self w') = None
  ∧ connection (self w') = None
  ∧ is_connected (self w') = false
  ∧ raises (channel None) w'
      (Exn RecoverableConnectionError "Connection already closed." None None).
Proof.
  intros Hc Hr Hhc Hreg H0 Hin. cbn zeta.
  unfold raises, world_after.
  rewrite (connect_run w callback Hc), Hr. clear Hc Hr.
  unfold linked. destruct_world w fw chb. compute_world. subst.
  cbn [handshake_loop]. compute_world.
  erewrite (drain_events_run _ _ _ _ reg); [|reflexivity || done..].
  cbn [dispatch_method]. unfold frame_taken, _on_close, _x_close_ok, _on_close_ok.
  compute_world.
  match goal with
  | |- context [collect ?v] =>
      destruct (collect_run v _ reg eq_refl eq_refl) as [Hret Hw];
      unfold returns, world_after in Hret, Hw;
      destruct (collect v) as [r wc]
  end.
  compute_world. subst r. rewrite Hw. unfold is_connected, channel. compute_world.
  by split_and!.
Qed.

Lemma connect_closed_by_broker_witness :
  let w := world_of (object_of (Connection_new (Some 3) (Some 0)))
             [InMethod 0 (Connection_Close 403 "ACCESS_REFUSED" 10 11)] (λ _, 0) true in
  raises (connect None) w (error_for_code 403 "ACCESS_REFUSED" (10, 11) ConnectionError)
  ∧ _transport (self (world_after (connect None) w)) = None.
Proof.
  intros w.
  destruct (connect_closed_by_broker w None 403 "ACCESS_REFUSED" 10 11 {[ 0 := ChSelf ]} []
              eq_refl eq_refl eq_refl eq_refl eq_refl eq_refl)
    as (H1 & _ & _ & _ & H5 & _).
  split; [exact H1 | exact H5].
Defined.

(** ** Reading frames *)

Lemma collect_read_state (w : World) :
  read_state (collect w).2 = read_state w.
Proof.
  pose proof (collect_keeps w) as H. unfold world_after in H.
  destruct (collect w).2 as [[] ? ? ? ? ? ? ?], w as [[] ? ? ? ? ? ? ?].
  cbv in H. inversion H; subst. reflexivity.
Qed.

(** No handler of the connection reads a frame or counts one. *)
Lemma dispatch_method_read_state (m : in_method) (w : World) :
  read_state (dispatch_method m w).2 = read_state w.
Proof.
  destruct m; cbn [dispatch_method].
  - destruct_world w fw chb. unfold _on_start, wanted_capabilities, read_state.
    cases; reflexivity.
  - by destruct w as [[] ? ? ? ? ? ? ?].
  - done.
  - destruct_world w fw chb. unfold _on_tune, _on_tune_sent, read_state.
    cases; reflexivity.
  - unfold _on_close, _x_close_ok, _on_close_ok, send_method, call_frame_writer,
      write_frame. run.
    destruct (_frame_writer (self w)); [|done].
    match goal with
    | |- context [collect ?v] =>
        pose proof (collect_read_state v) as H; destruct (collect v) as [[[]|e] wc]
    end; cbn [fst snd] in *; rewrite H; by destruct w as [[] ? ? ? ? ? ? ?].
  - unfold _on_blocked, call. run. destruct (on_blocked (self w)); [|done].
    by destruct w as [[] ? ? ? ? ? ? ?].
  - unfold _on_unblocked, call. run. destruct (on_unblocked (self w)); [|done].
    by destruct w as [[] ? ? ? ? ? ? ?].
  - apply collect_read_state.
  - done.
Qed.

(** X15.  With a transport and a frame handler in place and a frame
    pending, [drain_events] takes exactly that one frame and counts one
    read, whatever the frame is and whether its handler returns or raises;
    the frames behind it stay.  A method for a channel id that is not
    registered raises [KeyError]; a heartbeat frame changes nothing else. *)
Theorem drain_events_takes_one_frame (w : World) (t : Transport) (f : in_frame)
    (rest : list in_frame) :
  _transport (self w) = Some t →
  _on_inbound_frame (self w) = true →
  inbound w = f :: rest →
  let w' := world_after drain_events w in
  inbound w' = rest
  ∧ bytes_recv (self w') = bytes_recv (self w) + 1
  ∧ (∀ cid m reg, f = InMethod cid m → channels (self w) = Some reg →
       reg !! cid = None → raises drain_events w (builtin KeyError))
  ∧ (f = InHeartbeat → returns drain_events w tt ∧ w' = frame_taken rest w).
Proof.
  intros Ht Hh Hin. cbn zeta.
  assert (Hrun : drain_events w = handle_frame f (set_inbound rest w)).
  { unfold drain_events, blocking_read, read_frame. run. rewrite Ht, Hin. run.
    by rewrite Hh. }
  unfold world_after, returns, raises. rewrite Hrun.
  unfold handle_frame, on_inbound_method. run.
  set (w1 := set_self _ _).
  assert (Hw1 : read_state w1 = (rest, bytes_recv (self w) + 1))
    by (by destruct w as [[] ? ? ? ? ? ? ?]).
  assert (Hch : channels (self w1) = channels (self w))
    by (by destruct w as [[] ? ? ? ? ? ? ?]).
  assert (Hgoal : ∀ w2, read_state w2 = read_state w1 →
            inbound w2 = rest ∧ bytes_recv (self w2) = bytes_recv (self w) + 1).
  { intros w2 H2. rewrite Hw1 in H2. by injection H2. }
  destruct f as [cid m|].
  - rewrite Hch. destruct (channels (self w)) as [reg|] eqn:Hreg.
    + destruct (reg !! cid) as [[|i o]|] eqn:Hc.
      * destruct (Hgoal _ (dispatch_method_read_state m w1)) as [H1 H2].
        split_and!; [done..| |done].
        intros ? ? ? [= <- <-] [= <-]. congruence.
      * destruct (Hgoal w1 eq_refl) as [H1 H2]. split_and!; [done..| |done].
        intros ? ? ? [= <- <-] [= <-]. congruence.
      * destruct (Hgoal w1 eq_refl) as [H1 H2]. by split_and!.
    + destruct (Hgoal w1 eq_refl) as [H1 H2]. by split_and!.
  - destruct (Hgoal w1 eq_refl) as [H1 H2]. by split_and!.
Qed.

Lemma drain_events_takes_one_frame_witness :
  let w := set_inbound [InMethod 7 Channel_method; InHeartbeat] (sample_world 3 0) in
  inbound (world_after drain_events w) = [InHeartbeat]
  ∧ raises drain_events w (builtin KeyError).
Proof.
  intros w.
  destruct (drain_events_takes_one_frame w {| connected := true |}
              (InMethod 7 Channel_method) [InHeartbeat] eq_refl eq_refl eq_refl)
    as (H1 & _ & H3 & _).
  split; [exact H1|].
  exact (H3 7 Channel_method {[ 0 := ChSelf ]} eq_refl eq_refl eq_refl).
Defined.

(** ** When connect returns *)

Lemma handshake_loop_complete frames w w' :
  inbound w = frames →
  link_alive w →
  handshake_loop frames w = (Ok tt, w') →
  _handshake_complete (self w') = true.
Proof.
  revert w. induction frames as [|f rest IH]; intros w Hin Halive; cbn [handshake_loop].
  - destruct (_handshake_complete (self w)) eqn:Hhc.
    + by intros [= <-].
    + unfold drain_events, blocking_read, read_frame. run.
      destruct (_transport (self w)); [|done]. by rewrite Hin.
  - destruct (_handshake_complete (self w)) eqn:Hhc.
    + by intros [= <-].
    + run. destruct (drain_events w) as [[[]|e] w1] eqn:Hd; [|done].
      destruct (drain_events_link w w1 Hhc Halive Hd) as [Hin1 Hal1].
      apply IH; [by rewrite Hin1, Hin|done].
Qed.

(** X16.  [connect] on an instance that is not connected never returns
    before the handshake is complete: whenever it returns, the flag of the
    handshake is set and the transport is connected.  Its loop ends in no
    other way than by the flag or by an exception. *)
Theorem connect_returns_only_when_open (w w' : World) (callback : option (M unit)) :
  is_connected (self w) = false →
  connect callback w = (Ok tt, w') →
  _handshake_complete (self w') = true ∧ is_connected (self w') = true.
Proof.
  intros Hc Hrun. split.
  - rewrite (connect_run w callback Hc) in Hrun.
    destruct (reachable w); [|done].
    eapply (handshake_loop_complete _ (linked w)); [| |exact Hrun].
    + by destruct w as [[] ? ? ? ? ? ? ?].
    + left. by destruct w as [[] ? ? ? ? ? ? ?].
  - eapply connect_then_connected; [exact Hrun | by right].
Qed.

Lemma connect_returns_only_when_open_witness :
  let frames := [InMethod 0 (Connection_Start 0 9 ∅ "PLAIN" "en_US");
                 InMethod 0 (Connection_Tune 0 0 0);
                 InMethod 0 Connection_OpenOk] in
  let w := world_of (object_of (Connection_new (Some 3) (Some 0))) frames (λ _, 0) true in
  _handshake_complete (self (world_after (connect None) w)) = true.
Proof.
  intros frames w.
  assert (Hrun : connect None w = (Ok tt, world_after (connect None) w)).
  { unfold world_after.
    assert (Hr : (connect None w).1 = Ok tt) by reflexivity.
    destruct (connect None w) as [r w1]. cbn [fst snd] in *. by rewrite Hr. }
  exact (proj1 (connect_returns_only_when_open w _ None eq_refl Hrun)).
Defined.

(** X17.  A connection that was collected after its handshake is not
    revived by [connect]: [collect] leaves the flag of the handshake set,
    so [connect] opens a transport, finds the loop already done and returns
    without reading or writing a frame and without fulfilling [on_open];
    the instance then counts as connected, but its registry is still
    [None], and [channel] raises "Connection already closed.". *)
Theorem connect_after_collect_is_hollow (w0 : World) (callback : option (M unit))
    (channel_id : option Z) :
  _handshake_complete (self w0) = true →
  reachable w0 = true →
  let w := world_after collect w0 in
  let w' := world_after (connect callback) w in
  returns (connect callback) w tt
  ∧ wire w' = wire w0
  ∧ inbound w' = inbound w0
  ∧ called w' = called w0
  ∧ is_connected (self w') = true
  ∧ channels (self w') = None
  ∧ raises (channel channel_id) w'
      (Exn RecoverableConnectionError "Connection already closed." None None).
Proof.
  intros Hhc Hr. cbn zeta.
  destruct (collect_tears_down w0) as (Hch & Ht & _).
  destruct (without_link_fields _ _ (collect_keeps w0)) as (Hw & Hi & Hcl & Hre & Hh).
  set (w := world_after collect w0) in *.
  assert (Hc : is_connected (self w) = false) by (unfold is_connected; by rewrite Ht).
  unfold returns, raises, world_after.
  rewrite (connect_run w callback Hc), Hre, Hr.
  assert (Hloop : handshake_loop (inbound w) (linked w) = (Ok tt, linked w)).
  { assert (Hl : _handshake_complete (self (linked w)) = true).
    { rewrite <- Hhc, <- Hh. by destruct w as [[] ? ? ? ? ? ? ?]. }
    destruct (inbound w); cbn [handshake_loop]; by rewrite Hl. }
  rewrite Hloop. cbn [fst snd].
  assert (Hch' : channels (self (linked w)) = None)
    by (rewrite <- Hch; by destruct w as [[] ? ? ? ? ? ? ?]).
  split_and!; [done | by rewrite <- Hw | by rewrite <- Hi | by rewrite <- Hcl
              | done | done |].
  unfold channel. run. by rewrite Hch'.
Qed.

Lemma connect_after_collect_is_hollow_witness :
  let w0 := set_self (set__handshake_complete true (self (sample_world 3 0)))
              (sample_world 3 0) in
  let w := world_after collect w0 in
  returns (connect None) w tt
  ∧ raises (channel None) (world_after (connect None) w)
      (Exn RecoverableConnectionError "Connection already closed." None None).
Proof.
  intros w0 w.
  destruct (connect_after_collect_is_hollow w0 None None eq_refl eq_refl)
    as (H1 & _ & _ & _ & _ & _ & H7).
  split; [exact H1 | exact H7].
Defined.
